(** * BTC-20M-Countdown: issuance model, rate estimator, projection and feed
    coordinator of [script.ts], embedded in Rocq.

    Numbers.  Every quantity of the issuance model is an integer below 2^53
    (the largest is the total issuance, about 2.1 * 10^15), where the
    arithmetic of JavaScript numbers is exact; those are modelled in [Z].
    The empirical rate is a quotient of integers and is modelled as an exact
    rational ([Qc], canonical rationals with Leibniz equality); the rounding
    of IEEE doubles is not modelled. *)

From Equations Require Import Equations.
From Stdlib Require Import ZArith List Lia Bool QArith Qcanon Permutation Sorted.
From Stdlib Require Import Qround DecimalZ.
From Stdlib Require String Ascii DecimalString.
Import ListNotations.
Import String.StringSyntax.
Local Open Scope string_scope.
Local Open Scope Z_scope.

(* ===================================================================== *)
(** ** Constants (script.ts, lines 8-25)                                  *)
(* ===================================================================== *)

Definition TARGET_BTC : Z := 20000000.
Definition TOTAL_BTC_SUPPLY : Z := 21000000.
Definition SATS_PER_BTC : Z := 100000000.
Definition HALVING_INTERVAL : Z := 210000.
Definition INITIAL_SUBSIDY_SATS : Z := 50 * SATS_PER_BTC.
Definition FIXED_BLOCK_TIME_MS : Z := 10 * 60 * 1000.
Definition FALLBACK_BLOCK_TIME_MS : Z := FIXED_BLOCK_TIME_MS.
Definition TARGET_SATS : Z := TARGET_BTC * SATS_PER_BTC.

(* ===================================================================== *)
(** ** Issuance model                                                     *)
(* ===================================================================== *)

(** Number of binary digits of a positive integer, 0 otherwise: the measure
    under which [Math.floor(subsidy / 2)] decreases while [subsidy > 0]. *)
Definition bits (s : Z) : nat :=
  match s with
  | Zpos p => Pos.size_nat p
  | _ => O
  end.

(** The test of [while (remainingBlocks > 0 && subsidy > 0)]. *)
Definition era_loop_test (remainingBlocks subsidy : Z) :
  {remainingBlocks > 0 /\ subsidy > 0} + {~ (remainingBlocks > 0 /\ subsidy > 0)}.
Proof.
  destruct (Z_gt_dec remainingBlocks 0) as [Hr | Hr];
    destruct (Z_gt_dec subsidy 0) as [Hs | Hs];
    [left | right | right | right]; lia.
Defined.

(** The [while] loop of [totalSubsidyAtHeight] (lines 77-82); the three
    arguments are the loop's mutable locals. *)
Equations? totalSubsidy_loop (remainingBlocks subsidy total : Z) : Z
  by wf (bits subsidy) lt :=
  totalSubsidy_loop remainingBlocks subsidy total
    with era_loop_test remainingBlocks subsidy := {
    | left _ :=
        let blocksThisEra := Z.min remainingBlocks HALVING_INTERVAL in
        totalSubsidy_loop (remainingBlocks - blocksThisEra)
                          (subsidy / 2)
                          (total + blocksThisEra * subsidy);
    | right _ := total }.
Proof.
  rewrite <- Z.div2_div.
  destruct subsidy as [ | p | p]; try lia.
  destruct p; simpl; lia.
Qed.

(** Units issued by the first [r] blocks of a schedule that starts at [s]:
    the loop entered with [total = 0]. *)
Abbreviation issued r s := (totalSubsidy_loop r s 0).

(** [totalSubsidyAtHeight(height: number | null)], lines 70-85. *)
Definition totalSubsidyAtHeight (height : option Z) : Z :=
  match height with
  | None => 0
  | Some h =>
      if h <? 0 then 0
      else totalSubsidy_loop (h + 1) INITIAL_SUBSIDY_SATS 0
  end.

(** [Math.ceil(a / b)] on integers with [b > 0].  The loop divides only
    when [remaining <= subsidy * HALVING_INTERVAL], so the quotient is at
    most 210000 and, when not an integer, at least [1 / subsidy] away from
    the integers: rounding it to a double cannot move it across one. *)
Definition Math_ceil_div (a b : Z) : Z := - ((- a) / b).

(** The [while (subsidy > 0)] loop of [blockHeightForSupply] (lines 93-104);
    [None] is the [return null] after the loop. *)
Equations? blockHeightForSupply_loop (subsidy remaining blocks : Z) : option Z
  by wf (bits subsidy) lt :=
  blockHeightForSupply_loop subsidy remaining blocks
    with Z_gt_dec subsidy 0 := {
    | left _ :=
        let eraSupply := subsidy * HALVING_INTERVAL in
        if remaining >? eraSupply
        then blockHeightForSupply_loop (subsidy / 2)
                                       (remaining - eraSupply)
                                       (blocks + HALVING_INTERVAL)
        else
          let blocksNeeded := Math_ceil_div remaining subsidy in
          Some (blocks + blocksNeeded - 1);
    | right _ := None }.
Proof.
  rewrite <- Z.div2_div.
  destruct subsidy as [ | p | p]; try lia.
  destruct p; simpl; lia.
Qed.

(** [blockHeightForSupply(targetSats)], lines 88-107. *)
Definition blockHeightForSupply (targetSats : Z) : option Z :=
  blockHeightForSupply_loop INITIAL_SUBSIDY_SATS targetSats 0.

(** Module initialisation, lines 21-25: [TARGET_BLOCK] is the solver's
    result, a [null] result throws, otherwise it is bound to
    [TARGET_BLOCK_HEIGHT]. *)
Definition TARGET_BLOCK : option Z := blockHeightForSupply TARGET_SATS.

Inductive InitError : Set :=
| UnableToComputeTargetBlockHeight.

Definition module_init : InitError + Z :=
  match TARGET_BLOCK with
  | None => inl UnableToComputeTargetBlockHeight
  | Some b => inr b
  end.

(** The constant the rest of the script reads.  The default is never taken:
    [module_init_ok] below shows that initialisation does not throw. *)
Definition TARGET_BLOCK_HEIGHT : Z :=
  match module_init with
  | inr b => b
  | inl _ => 0
  end.

(** *** The era summation, written from the schedule (the closed form
    the loop is compared with)

    Era [k] pays [INITIAL_SUBSIDY_SATS / 2^k] per block; of the [h + 1]
    blocks up to height [h], era [k] holds
    [min (max 0 (h + 1 - k * HALVING_INTERVAL)) HALVING_INTERVAL]. *)

Fixpoint sum_eras (f : nat -> Z) (n : nat) : Z :=
  match n with
  | O => 0
  | S k => sum_eras f k + f k
  end.

Definition eraSubsidy (start : Z) (k : nat) : Z := start / 2 ^ Z.of_nat k.

Definition eraBlocks (blocksIssued : Z) (k : nat) : Z :=
  Z.min (Z.max 0 (blocksIssued - Z.of_nat k * HALVING_INTERVAL)) HALVING_INTERVAL.

(** Eras with a non-zero subsidy: 50 * 10^8 < 2^33. *)
Definition ERA_COUNT : nat := 33.

Definition eraSummation (h : Z) : Z :=
  sum_eras (fun k => eraBlocks (h + 1) k * eraSubsidy INITIAL_SUBSIDY_SATS k) ERA_COUNT.

(** Total issuance of the whole schedule. *)
Definition totalIssuance : Z :=
  sum_eras (fun k => HALVING_INTERVAL * eraSubsidy INITIAL_SUBSIDY_SATS k) ERA_COUNT.

(* ===================================================================== *)
(** ** Rate estimator                                                     *)
(* ===================================================================== *)

(** [type Block = { height: number; timestamp: number }]; the feed reports
    integer heights and Unix-seconds integer timestamps. *)
Record Block : Set := mkBlock { height : Z; timestamp : Z }.

Inductive EstimateMode : Set := average | fixed.

(** An integer read as a (rational) JavaScript number. *)
Definition num (z : Z) : Qc := Q2Qc (inject_Z z).

(** The [for] loop of [calculateAverageBlockTimeMs] (lines 114-120): it
    visits the adjacent pairs [blocks[i], blocks[i + 1]] from the front
    and threads the locals [totalSeconds] and [samples]. *)
Fixpoint delta_loop (blocks : list Block) (totalSeconds samples : Z) : Z * Z :=
  match blocks with
  | b :: ((b' :: _) as rest) =>
      let delta := timestamp b - timestamp b' in
      if delta >? 0
      then delta_loop rest (totalSeconds + delta) (samples + 1)
      else delta_loop rest totalSeconds samples
  | _ => (totalSeconds, samples)
  end.

(** [calculateAverageBlockTimeMs(blocks)], lines 109-124; [None] is [null]. *)
Definition calculateAverageBlockTimeMs (blocks : list Block) : option Qc :=
  if (length blocks <? 2)%nat then None
  else
    let '(totalSeconds, samples) := delta_loop blocks 0 0 in
    if samples =? 0 then None
    else Some ((num totalSeconds / num samples) * num 1000)%Qc.

(* ===================================================================== *)
(** ** Estimate state, projection engine                                  *)
(* ===================================================================== *)

(** The module-level [let] variables, lines 28-33 (the timer handle
    [countdownInterval] is left out). *)
Record State : Type := mkState {
  currentBlock : option Z;
  avgBlockTimeMs : Qc;
  lastBlockTimeMs : option Z;
  estimatedTargetTimeMs : option Qc;
  estimateMode : EstimateMode
}.

Definition initial_state : State :=
  {| currentBlock := None;
     avgBlockTimeMs := num FALLBACK_BLOCK_TIME_MS;
     lastBlockTimeMs := None;
     estimatedTargetTimeMs := None;
     estimateMode := average |}.

Definition set_currentBlock (v : option Z) (s : State) : State :=
  mkState v (avgBlockTimeMs s) (lastBlockTimeMs s) (estimatedTargetTimeMs s) (estimateMode s).
Definition set_avgBlockTimeMs (v : Qc) (s : State) : State :=
  mkState (currentBlock s) v (lastBlockTimeMs s) (estimatedTargetTimeMs s) (estimateMode s).
Definition set_lastBlockTimeMs (v : option Z) (s : State) : State :=
  mkState (currentBlock s) (avgBlockTimeMs s) v (estimatedTargetTimeMs s) (estimateMode s).
Definition set_estimatedTargetTimeMs (v : option Qc) (s : State) : State :=
  mkState (currentBlock s) (avgBlockTimeMs s) (lastBlockTimeMs s) v (estimateMode s).
Definition set_estimateMode (v : EstimateMode) (s : State) : State :=
  mkState (currentBlock s) (avgBlockTimeMs s) (lastBlockTimeMs s) (estimatedTargetTimeMs s) v.

(** [getActiveBlockTimeMs()], lines 126-128. *)
Definition getActiveBlockTimeMs (s : State) : Qc :=
  match estimateMode s with
  | fixed => num FIXED_BLOCK_TIME_MS
  | average => avgBlockTimeMs s
  end.

(** [updateEstimatedTargetTime(blocksLeft, anchorTimeMs)], lines 130-133.
    Every call site passes the anchor explicitly, so the default argument
    [lastBlockTimeMs] is not modelled. *)
Definition updateEstimatedTargetTime
    (blocksLeft : option Z) (anchorTimeMs : option Z) (s : State) : State :=
  match anchorTimeMs, blocksLeft with
  | Some anchor, Some n =>
      set_estimatedTargetTimeMs
        (Some (num anchor + num n * getActiveBlockTimeMs s)%Qc) s
  | _, _ => s
  end.

(** The result record of [calculateRemaining()], lines 197-205. *)
Record Remaining : Set := mkRemaining {
  blocksLeft : Z;
  totalMinedSats : Z;
  btcLeftSats : Z
}.

Definition calculateRemaining (s : State) : option Remaining :=
  match currentBlock s with
  | None => None
  | Some cur =>
      let blocksLeft := Z.max 0 (TARGET_BLOCK_HEIGHT - cur) in
      let totalMinedSats := totalSubsidyAtHeight (Some cur) in
      let btcLeftSats := Z.max 0 (TARGET_SATS - totalMinedSats) in
      Some (mkRemaining blocksLeft totalMinedSats btcLeftSats)
  end.

(* ===================================================================== *)
(** ** Output surface and feed update coordinator                         *)
(* ===================================================================== *)

(** What the element [current-block] shows. *)
Inductive CounterText : Set :=
| TextFromPage
| TextApiError
| TextHeight (h : Z).

(** The part of the page the coordinator writes: the [error] class and the
    text of [current-block], and the time written to [last-update]. *)
Record Dom : Set := mkDom {
  currentBlock_error : bool;
  currentBlock_text : CounterText;
  lastUpdate_time : option Z
}.

Definition initial_dom : Dom := mkDom false TextFromPage None.

Record World : Type := mkWorld { st : State; dom : Dom }.

Definition initial_world : World := mkWorld initial_state initial_dom.

(** [updateLastUpdateTime()], lines 325-333; [clock] is its [new Date()]. *)
Definition updateLastUpdateTime (clock : Z) (d : Dom) : Dom :=
  mkDom (currentBlock_error d) (currentBlock_text d) (Some clock).

(** [[...blocks].sort((a, b) => b.height - a.height)]: the stable sort by
    descending height.  [insert_desc] puts a block in front of the first
    block that is not strictly higher, so blocks of equal height keep the
    order of the batch. *)
Fixpoint insert_desc (x : Block) (l : list Block) : list Block :=
  match l with
  | [] => [x]
  | y :: l' =>
      if height x <? height y then y :: insert_desc x l'
      else x :: y :: l'
  end.

Definition sortByHeightDesc (blocks : list Block) : list Block :=
  fold_right insert_desc [] blocks.

(** [currentBlock === null || h !== currentBlock]. *)
Definition isNewBlock (s : State) (h : Z) : bool :=
  match currentBlock s with
  | None => true
  | Some cur => negb (h =? cur)
  end.

Definition is_null {A : Type} (o : option A) : bool :=
  match o with
  | None => true
  | Some _ => false
  end.

(** [if (averageMs)]: [null] and [0] are falsy. *)
Definition truthy (averageMs : option Qc) : bool :=
  match averageMs with
  | None => false
  | Some v => if Qc_eq_dec v (num 0) then false else true
  end.

(** [fetchBlockHeightFallback()], lines 170-194.  [response] is the finite
    number read from the height endpoint, [None] when the request, the
    status check or the finiteness check throws; [now] is [Date.now()]. *)
Definition fetchBlockHeightFallback
    (response : option Z) (now clock : Z) (w : World) : World * bool :=
  match response with
  | Some h =>
      let isNew := isNewBlock (st w) h in
      let s1 := set_currentBlock (Some h) (st w) in
      let s2 :=
        if isNew || is_null (estimatedTargetTimeMs s1) then
          let s' := set_lastBlockTimeMs (Some now) s1 in
          updateEstimatedTargetTime
            (Some (Z.max 0 (TARGET_BLOCK_HEIGHT - h))) (lastBlockTimeMs s') s'
        else s1 in
      (mkWorld s2 (updateLastUpdateTime clock (dom w)), true)
  | None =>
      (mkWorld (st w) (mkDom true TextApiError (lastUpdate_time (dom w))), false)
  end.

(** [fetchBlockData()], lines 136-168.  [response] is the parsed array of
    the blocks endpoint, [None] when the request, the status check or the
    parsing throws; an empty array throws as well.  Every throw happens
    before the first assignment and lands in the [catch], which returns the
    fallback's result. *)
Definition fetchBlockData
    (response : option (list Block)) (fallback : option Z)
    (now clock : Z) (w : World) : World * bool :=
  match response with
  | Some ((first :: _) as blocks) =>
      let sortedBlocks := sortByHeightDesc blocks in
      let tipBlock := hd first sortedBlocks in
      let nextHeight := height tipBlock in
      let isNew := isNewBlock (st w) nextHeight in
      let s1 := set_currentBlock (Some nextHeight) (st w) in
      let averageMs := calculateAverageBlockTimeMs sortedBlocks in
      let s2 :=
        match averageMs with
        | Some v => if truthy averageMs then set_avgBlockTimeMs v s1 else s1
        | None => s1
        end in
      let blockTimeMs := timestamp tipBlock * 1000 in
      let s3 :=
        if isNew || is_null (estimatedTargetTimeMs s2)
           || negb (match lastBlockTimeMs s2 with
                    | Some t => t =? blockTimeMs
                    | None => false
                    end)
        then
          let s' := set_lastBlockTimeMs (Some blockTimeMs) s2 in
          updateEstimatedTargetTime
            (Some (Z.max 0 (TARGET_BLOCK_HEIGHT - nextHeight))) (Some blockTimeMs) s'
        else s2 in
      (mkWorld s3 (updateLastUpdateTime clock (dom w)), true)
  | _ => fetchBlockHeightFallback fallback now clock w
  end.

(** The effect of [updateDisplay()] (lines 350-363) on the modelled part of
    the page: with a counter value, [updateStatsDisplay] removes the
    [error] class and writes the formatted height. *)
Definition updateDisplay (w : World) : World :=
  match calculateRemaining (st w) with
  | None => w
  | Some _ =>
      mkWorld (st w)
        (mkDom false
               (TextHeight (match currentBlock (st w) with Some c => c | None => 0 end))
               (lastUpdate_time (dom w)))
  end.

(** The [change] listener of the rate-mode toggle, lines 340-346. *)
Definition onEstimateModeChange (checked : bool) (w : World) : World :=
  let s1 := set_estimateMode (if checked then average else fixed) (st w) in
  let s2 :=
    match currentBlock s1, lastBlockTimeMs s1 with
    | Some cur, Some anchor =>
        updateEstimatedTargetTime
          (Some (Z.max 0 (TARGET_BLOCK_HEIGHT - cur))) (Some anchor) s1
    | _, _ => s1
    end in
  updateDisplay (mkWorld s2 (dom w)).

(** The rate the state holds after a successful primary poll. *)
Definition polledRate (sortedBlocks : list Block) (s : State) : Qc :=
  match calculateAverageBlockTimeMs sortedBlocks with
  | Some v => v
  | None => avgBlockTimeMs s
  end.

(** The test of line 158, on the state before the poll. *)
Definition reprojects (tipBlock : Block) (s : State) : bool :=
  isNewBlock s (height tipBlock)
  || is_null (estimatedTargetTimeMs s)
  || negb (match lastBlockTimeMs s with
           | Some t => t =? timestamp tipBlock * 1000
           | None => false
           end).

(** The primary poll fails: the request, the status check or the parsing
    throws, or the array is empty. *)
Definition primary_failed (response : option (list Block)) : Prop :=
  response = None \/ response = Some [].

(** Some adjacent pair [blocks[i], blocks[i + 1]] has a strictly positive
    timestamp delta. *)
Definition has_positive_delta (blocks : list Block) : Prop :=
  exists i b b',
    nth_error blocks i = Some b /\ nth_error blocks (S i) = Some b' /\
    timestamp b - timestamp b' > 0.

(** The body of the polling timer and of the visibility listener:
    [await fetchBlockData(); updateDisplay()]. *)
Definition pollCycle
    (response : option (list Block)) (fallback : option Z)
    (now clock : Z) (w : World) : World :=
  updateDisplay (fst (fetchBlockData response fallback now clock w)).

(** The operations that run on the page, and the worlds they can reach:
    a feed poll [fetchBlockData()], a flip of the rate-mode toggle, and a
    display refresh [updateDisplay()] (after a poll and on the one-second
    timer). *)
Inductive Event : Type :=
| EvFetch (response : option (list Block)) (fallback : option Z) (now clock : Z)
| EvToggle (checked : bool)
| EvDisplay.

Definition step (e : Event) (w : World) : World :=
  match e with
  | EvFetch response fallback now clock =>
      fst (fetchBlockData response fallback now clock w)
  | EvToggle checked => onEstimateModeChange checked w
  | EvDisplay => updateDisplay w
  end.

Definition run (events : list Event) (w : World) : World :=
  fold_left (fun w e => step e w) events w.

Inductive reachable : World -> Prop :=
| reach_init : reachable initial_world
| reach_step : forall e w, reachable w -> reachable (step e w).

(** The two shapes of the estimate state: nothing known yet, or a counter
    value, an anchor and a projection that lies [blocks left * rate] after
    the anchor for some strictly positive rate. *)
Definition estimate_unset (s : State) : Prop :=
  currentBlock s = None /\ lastBlockTimeMs s = None /\ estimatedTargetTimeMs s = None.

Definition estimate_projected (s : State) : Prop :=
  exists cur anchor rate,
    currentBlock s = Some cur /\
    lastBlockTimeMs s = Some anchor /\
    (num 0 < rate)%Qc /\
    estimatedTargetTimeMs s =
      Some (num anchor + num (Z.max 0 (TARGET_BLOCK_HEIGHT - cur)) * rate)%Qc.

(* ===================================================================== *)
(** ** Presentation: the values handed to the page                        *)
(* ===================================================================== *)

(** [Math.floor] and [Math.round] (ties go up) on a rational number. *)
Definition Math_floor (x : Qc) : Z := Qfloor x.


(** [Math.max(0, x)] and [Math.min(x, y)] on rational numbers. *)
Definition Math_max0 (x : Qc) : Qc :=
  if Qclt_le_dec (num 0) x then x else num 0.

Definition Math_min (x y : Qc) : Qc :=
  if Qclt_le_dec y x then y else x.

(** [String(n)] for an integer [n]: its decimal digits, with a leading
    [-] when negative. *)
Definition String_of_Z (n : Z) : String.string :=
  DecimalString.NilZero.string_of_int (Z.to_int n).

(** The first [n] characters of [fill] repeated without end ([cur] is what
    is left of the current copy); empty when [fill] is. *)
Fixpoint fill_chars (n : nat) (cur fill : String.string) : String.string :=
  match n with
  | O => String.EmptyString
  | S n' =>
      match cur with
      | String.String c rest => String.String c (fill_chars n' rest fill)
      | String.EmptyString =>
          match fill with
          | String.String c rest => String.String c (fill_chars n' rest fill)
          | String.EmptyString => String.EmptyString
          end
      end
  end.

(** [s.padStart(targetLength, padString)]. *)
Definition padStart (targetLength : nat) (padString s : String.string) : String.string :=
  if (targetLength <=? String.length s)%nat then s
  else String.append (fill_chars (targetLength - String.length s) padString padString) s.

(** [padZero(num)], lines 228-230. *)
Definition padZero (n : Qc) : String.string :=
  padStart 2 "0" (String_of_Z (Math_floor n)).


(** The numbers [updateCountdownDisplay] derives from [msLeft], lines
    258-262: days, hours, minutes and seconds. *)
Record Countdown : Set := mkCountdown {
  days : Z;
  hours : Z;
  mins : Z;
  secs : Z
}.

Definition countdownOf (msLeft : Qc) : Countdown :=
  let totalSeconds := Math_floor (msLeft / num 1000)%Qc in
  mkCountdown (totalSeconds / 86400)
              (Z.rem totalSeconds 86400 / 3600)
              (Z.rem totalSeconds 3600 / 60)
              (Z.rem totalSeconds 60).

(** [updateCountdownDisplay(msLeft)], lines 249-274: the four strings
    handed to [triggerFlip], for the days, hours, minutes and seconds. *)
Definition updateCountdownDisplay (msLeft : option Qc)
  : String.string * String.string * String.string * String.string :=
  match msLeft with
  | None => ("--", "--", "--", "--")
  | Some ms =>
      let c := countdownOf ms in
      (padZero (num (days c)), padZero (num (hours c)),
       padZero (num (mins c)), padZero (num (secs c)))
  end.

(** The [msLeft] of [updateDisplay()], lines 357-359; [now] is its
    [Date.now()]. *)
Definition displayMsLeft (s : State) (now : Z) : option Qc :=
  match estimatedTargetTimeMs s with
  | None => None
  | Some estimate => Some (Math_max0 (estimate - num now)%Qc)
  end.

(** What [updateStatsDisplay] writes to [estimated-date], lines 299-305:
    the word for a reached target, the date [Date.now() + msLeft] (left
    unformatted here), or a placeholder. *)
Inductive EstimatedDateText : Type :=
| DateReached
| DateAt (instantMs : Qc)
| DatePlaceholder.

Definition estimatedDateText (data : Remaining) (msLeft : option Qc) (now : Z)
  : EstimatedDateText :=
  if blocksLeft data =? 0 then DateReached
  else match msLeft with
       | Some ms => DateAt (num now + ms)%Qc
       | None => DatePlaceholder
       end.

(** The [progressPercent] of [updateStatsDisplay], line 309. *)
Definition progressPercent (data : Remaining) : Qc :=
  Math_min ((num (totalMinedSats data) / num (TOTAL_BTC_SUPPLY * SATS_PER_BTC))
            * num 100)%Qc
           (num 100).



(* ===================================================================== *)
(** ** Properties of the issuance model                                   *)
(* ===================================================================== *)

Section Halving.

Lemma bits_halve (s : Z) : 0 < s -> (bits (s / 2) < bits s)%nat.
Proof.
  intros Hs. rewrite <- Z.div2_div.
  destruct s as [ | p | p]; try lia.
  destruct p; simpl; lia.
Qed.

(** Induction along [subsidy = Math.floor(subsidy / 2)]. *)
Lemma halving_ind (P : Z -> Prop) :
  (forall s, s <= 0 -> P s) ->
  (forall s, 0 < s -> P (s / 2) -> P s) ->
  forall s, P s.
Proof.
  intros Hstop Hhalf s.
  remember (bits s) as n eqn:Hn. revert s Hn.
  induction n as [n IH] using lt_wf_ind. intros s Hn.
  destruct (Z_le_gt_dec s 0) as [Hle | Hgt].
  - now apply Hstop.
  - apply Hhalf; [lia | ].
    apply (IH (bits (s / 2))); [ | reflexivity].
    subst n. apply bits_halve. lia.
Qed.

Lemma half_nonneg (s : Z) : 0 < s -> 0 <= s / 2.
Proof. intros. apply Z.div_pos; lia. Qed.

Lemma half_pos (s : Z) : 2 <= s -> 0 < s / 2.
Proof. intros. apply Z.div_str_pos; lia. Qed.

End Halving.

(** [halving s]: induction on [s] along the halving, with the hypotheses
    named [Hs] (sign of [s]) and [IH]. *)
Ltac halving s :=
  pattern s; apply halving_ind; clear s; [intros s Hs | intros s Hs IH].

(** *** The loop of [totalSubsidyAtHeight] *)

Lemma totalSubsidy_loop_exit (r s t : Z) :
  ~ (r > 0 /\ s > 0) -> totalSubsidy_loop r s t = t.
Proof.
  intros Hn. rewrite totalSubsidy_loop_equation_1.
  destruct (era_loop_test r s) as [Hy | Hn']; [contradiction | reflexivity].
Qed.

Lemma totalSubsidy_loop_iter (r s t : Z) :
  r > 0 -> s > 0 ->
  totalSubsidy_loop r s t =
  totalSubsidy_loop (r - Z.min r HALVING_INTERVAL) (s / 2)
                    (t + Z.min r HALVING_INTERVAL * s).
Proof.
  intros Hr Hs. rewrite totalSubsidy_loop_equation_1.
  destruct (era_loop_test r s) as [Hy | Hn]; [reflexivity | exfalso; apply Hn; lia].
Qed.

(** The accumulator [total] only adds up. *)
Lemma totalSubsidy_loop_acc (s : Z) :
  forall r t, totalSubsidy_loop r s t = t + totalSubsidy_loop r s 0.
Proof.
  halving s; intros r t.
  - rewrite !totalSubsidy_loop_exit by lia. lia.
  - destruct (Z_gt_dec r 0) as [Hr | Hr].
    + rewrite (totalSubsidy_loop_iter r s t), (totalSubsidy_loop_iter r s 0) by lia.
      rewrite IH. rewrite (IH _ (0 + _)). lia.
    + rewrite !totalSubsidy_loop_exit by lia. lia.
Qed.


Lemma issued_none (r s : Z) : r <= 0 \/ s <= 0 -> issued r s = 0.
Proof. intros H. apply totalSubsidy_loop_exit. lia. Qed.

Lemma issued_within_era (r s : Z) :
  0 < r <= HALVING_INTERVAL -> 0 < s -> issued r s = r * s.
Proof.
  intros Hr Hs. rewrite totalSubsidy_loop_iter by lia.
  rewrite Z.min_l by lia. rewrite totalSubsidy_loop_exit by lia. lia.
Qed.

Lemma issued_past_era (r s : Z) :
  HALVING_INTERVAL < r -> 0 < s ->
  issued r s = HALVING_INTERVAL * s + issued (r - HALVING_INTERVAL) (s / 2).
Proof.
  intros Hr Hs. unfold HALVING_INTERVAL in Hr.
  rewrite totalSubsidy_loop_iter by lia.
  rewrite Z.min_r by (unfold HALVING_INTERVAL; lia).
  rewrite totalSubsidy_loop_acc. lia.
Qed.

Lemma issued_nonneg (s : Z) : forall r, 0 <= issued r s.
Proof.
  halving s; intros r.
  - rewrite issued_none by lia. lia.
  - destruct (Z_le_gt_dec r 0) as [Hr | Hr].
    + rewrite issued_none by lia. lia.
    + destruct (Z_le_gt_dec r HALVING_INTERVAL) as [Hl | Hl].
      * rewrite issued_within_era by lia. nia.
      * rewrite issued_past_era by lia. specialize (IH (r - HALVING_INTERVAL)).
        unfold HALVING_INTERVAL in *. nia.
Qed.

Lemma issued_pos (r s : Z) : 0 < r -> 0 < s -> 0 < issued r s.
Proof.
  intros Hr Hs. destruct (Z_le_gt_dec r HALVING_INTERVAL) as [Hl | Hl].
  - rewrite issued_within_era by lia. nia.
  - rewrite issued_past_era by lia.
    pose proof (issued_nonneg (s / 2) (r - HALVING_INTERVAL)).
    unfold HALVING_INTERVAL in *. nia.
Qed.

(** *** The loop equals the era summation *)

Lemma sum_eras_shift (f : nat -> Z) (n : nat) :
  sum_eras f (S n) = f O + sum_eras (fun k => f (S k)) n.
Proof.
  induction n as [ | n IH]; [simpl; lia | ].
  change (sum_eras f (S (S n))) with (sum_eras f (S n) + f (S n)).
  rewrite IH. simpl. lia.
Qed.

Lemma sum_eras_ext (f g : nat -> Z) (n : nat) :
  (forall k, (k < n)%nat -> f k = g k) -> sum_eras f n = sum_eras g n.
Proof.
  induction n as [ | n IH]; intros H; simpl; [reflexivity | ].
  rewrite IH, H by (intros; try apply H; lia). reflexivity.
Qed.

Lemma sum_eras_le (f g : nat -> Z) (n : nat) :
  (forall k, (k < n)%nat -> f k <= g k) -> sum_eras f n <= sum_eras g n.
Proof.
  induction n as [ | n IH]; intros H; simpl; [lia | ].
  assert (sum_eras f n <= sum_eras g n) by (apply IH; intros; apply H; lia).
  assert (f n <= g n) by (apply H; lia). lia.
Qed.

Lemma sum_eras_zero (f : nat -> Z) (n : nat) :
  (forall k, (k < n)%nat -> f k = 0) -> sum_eras f n = 0.
Proof.
  induction n as [ | n IH]; intros H; simpl; [reflexivity | ].
  rewrite IH, H by (intros; try apply H; lia). reflexivity.
Qed.

Lemma eraSubsidy_nonneg (s : Z) (k : nat) : 0 <= s -> 0 <= eraSubsidy s k.
Proof. intros Hs. unfold eraSubsidy. apply Z.div_pos; [lia | ]. apply Z.pow_pos_nonneg; lia. Qed.

Lemma eraSubsidy_O (s : Z) : eraSubsidy s O = s.
Proof. unfold eraSubsidy. simpl. apply Z.div_1_r. Qed.

Lemma eraSubsidy_S (s : Z) (k : nat) : eraSubsidy s (S k) = eraSubsidy (s / 2) k.
Proof.
  unfold eraSubsidy. rewrite Nat2Z.inj_succ, Z.pow_succ_r by lia.
  assert (0 < 2 ^ Z.of_nat k) by (apply Z.pow_pos_nonneg; lia).
  rewrite Z.div_div by lia. reflexivity.
Qed.

Lemma eraBlocks_bounds (r : Z) (k : nat) : 0 <= eraBlocks r k <= HALVING_INTERVAL.
Proof. unfold eraBlocks, HALVING_INTERVAL. lia. Qed.

Lemma eraBlocks_mono (r1 r2 : Z) (k : nat) : r1 <= r2 -> eraBlocks r1 k <= eraBlocks r2 k.
Proof. unfold eraBlocks. lia. Qed.

Lemma eraBlocks_exhausted (r : Z) (k : nat) : r <= 0 -> eraBlocks r k = 0.
Proof. unfold eraBlocks, HALVING_INTERVAL. lia. Qed.

Lemma eraBlocks_O (r : Z) : 0 < r -> eraBlocks r O = Z.min r HALVING_INTERVAL.
Proof. unfold eraBlocks. lia. Qed.

Lemma eraBlocks_S (r : Z) (k : nat) :
  0 < r -> eraBlocks r (S k) = eraBlocks (r - Z.min r HALVING_INTERVAL) k.
Proof. unfold eraBlocks, HALVING_INTERVAL. lia. Qed.

(** For a schedule whose starting amount has at most [n] binary digits the
    loop computes the sum over the first [n] eras. *)
Lemma totalSubsidy_loop_closed_form (n : nat) :
  forall r s t, 0 <= s < 2 ^ Z.of_nat n ->
  totalSubsidy_loop r s t =
  t + sum_eras (fun k => eraBlocks r k * eraSubsidy s k) n.
Proof.
  induction n as [ | n IH]; intros r s t Hs.
  - simpl in Hs. rewrite totalSubsidy_loop_exit by lia. simpl. lia.
  - destruct (era_loop_test r s) as [[Hr Hp] | Hn].
    + rewrite totalSubsidy_loop_iter by assumption.
      rewrite IH.
      * rewrite sum_eras_shift, eraBlocks_O, eraSubsidy_O by lia.
        rewrite (sum_eras_ext (fun k => eraBlocks r (S k) * eraSubsidy s (S k))
                              (fun k => eraBlocks (r - Z.min r HALVING_INTERVAL) k
                                        * eraSubsidy (s / 2) k)).
        -- lia.
        -- intros k _. rewrite eraBlocks_S, eraSubsidy_S by lia. reflexivity.
      * rewrite Nat2Z.inj_succ, Z.pow_succ_r in Hs by lia.
        split; [apply half_nonneg; lia | ].
        apply Z.div_lt_upper_bound; lia.
    + rewrite totalSubsidy_loop_exit by assumption.
      rewrite sum_eras_zero; [lia | ].
      intros k _. destruct (Z_le_gt_dec r 0) as [Hr | Hr].
      * rewrite eraBlocks_exhausted by lia. lia.
      * assert (s = 0) by lia. subst s. unfold eraSubsidy. rewrite Z.div_0_l; [lia | ].
        apply Z.pow_nonzero; lia.
Qed.

Lemma initial_subsidy_range : 0 <= INITIAL_SUBSIDY_SATS < 2 ^ Z.of_nat ERA_COUNT.
Proof. vm_compute. split; [discriminate | reflexivity]. Qed.

Lemma totalSubsidy_is_eraSummation (h : Z) :
  totalSubsidyAtHeight (Some h) = eraSummation h.
Proof.
  unfold totalSubsidyAtHeight, eraSummation.
  rewrite <- (Z.add_0_l (sum_eras _ _)).
  rewrite <- (totalSubsidy_loop_closed_form ERA_COUNT (h + 1) INITIAL_SUBSIDY_SATS 0
                initial_subsidy_range).
  destruct (Z.ltb_spec h 0) as [Hneg | Hpos]; [ | reflexivity].
  rewrite issued_none by lia. reflexivity.
Qed.

Lemma eraSummation_mono (h1 h2 : Z) : h1 <= h2 -> eraSummation h1 <= eraSummation h2.
Proof.
  intros Hh. unfold eraSummation. apply sum_eras_le. intros k _.
  apply Z.mul_le_mono_nonneg_r.
  - apply eraSubsidy_nonneg. apply initial_subsidy_range.
  - apply eraBlocks_mono. lia.
Qed.

Lemma eraSummation_nonneg (h : Z) : 0 <= eraSummation h.
Proof.
  unfold eraSummation.
  rewrite <- (sum_eras_zero (fun _ => 0) ERA_COUNT) by reflexivity.
  apply sum_eras_le. intros k _. apply Z.mul_nonneg_nonneg.
  - apply eraBlocks_bounds.
  - apply eraSubsidy_nonneg. apply initial_subsidy_range.
Qed.

Lemma eraSummation_le_total (h : Z) : eraSummation h <= totalIssuance.
Proof.
  unfold eraSummation, totalIssuance. apply sum_eras_le. intros k _.
  apply Z.mul_le_mono_nonneg_r.
  - apply eraSubsidy_nonneg. apply initial_subsidy_range.
  - apply eraBlocks_bounds.
Qed.

(** *** Ceiling division *)

Lemma Math_ceil_div_mul (r b : Z) : 0 < b -> Math_ceil_div (r * b) b = r.
Proof.
  intros Hb. unfold Math_ceil_div.
  rewrite <- Z.mul_opp_l, Z.div_mul by lia. lia.
Qed.

Lemma Math_ceil_div_covers (a b : Z) : 0 < b -> a <= Math_ceil_div a b * b.
Proof.
  intros Hb. unfold Math_ceil_div.
  pose proof (Z.mul_div_le (- a) b Hb). lia.
Qed.

Lemma Math_ceil_div_le (a b n : Z) : 0 < b -> a <= n * b -> Math_ceil_div a b <= n.
Proof.
  intros Hb Ha. unfold Math_ceil_div.
  assert (- n <= (- a) / b) by (apply Z.div_le_lower_bound; lia). lia.
Qed.

Lemma Math_ceil_div_pos (a b : Z) : 0 < b -> 0 < a -> 1 <= Math_ceil_div a b.
Proof.
  intros Hb Ha. unfold Math_ceil_div.
  assert ((- a) / b < 0) by (apply Z.div_lt_upper_bound; lia). lia.
Qed.

(** *** The loop of [blockHeightForSupply] *)

Lemma Some_eq_inv {A : Type} (a b : A) : Some a = Some b -> a = b.
Proof. congruence. Qed.

Lemma solver_exhausted (s rem b : Z) :
  s <= 0 -> blockHeightForSupply_loop s rem b = None.
Proof.
  intros Hs. rewrite blockHeightForSupply_loop_equation_1.
  destruct (Z_gt_dec s 0) as [Hy | Hn]; [lia | reflexivity].
Qed.

Lemma solver_skip_era (s rem b : Z) :
  0 < s -> s * HALVING_INTERVAL < rem ->
  blockHeightForSupply_loop s rem b =
  blockHeightForSupply_loop (s / 2) (rem - s * HALVING_INTERVAL) (b + HALVING_INTERVAL).
Proof.
  intros Hs Hrem. rewrite blockHeightForSupply_loop_equation_1.
  destruct (Z_gt_dec s 0) as [Hy | Hn]; [ | lia].
  cbn -[Z.mul Z.div Z.gtb blockHeightForSupply_loop].
  destruct (Z.gtb_spec rem (s * HALVING_INTERVAL)); [reflexivity | lia].
Qed.

Lemma solver_in_era (s rem b : Z) :
  0 < s -> rem <= s * HALVING_INTERVAL ->
  blockHeightForSupply_loop s rem b = Some (b + Math_ceil_div rem s - 1).
Proof.
  intros Hs Hrem. rewrite blockHeightForSupply_loop_equation_1.
  destruct (Z_gt_dec s 0) as [Hy | Hn]; [ | lia].
  cbn -[Z.mul Z.div Z.gtb blockHeightForSupply_loop].
  destruct (Z.gtb_spec rem (s * HALVING_INTERVAL)); [lia | reflexivity].
Qed.

(** The counter [blocks] only adds up. *)
Lemma solver_acc :
  forall s rem b,
  blockHeightForSupply_loop s rem b =
  option_map (Z.add b) (blockHeightForSupply_loop s rem 0).
Proof.
  intros s. halving s; intros rem b.
  - rewrite !solver_exhausted by lia. reflexivity.
  - destruct (Z_lt_le_dec (s * HALVING_INTERVAL) rem) as [Hgt | Hle].
    + rewrite (solver_skip_era s rem b), (solver_skip_era s rem 0) by lia.
      rewrite IH, (IH _ (0 + _)).
      destruct (blockHeightForSupply_loop (s / 2) (rem - s * HALVING_INTERVAL) 0);
        cbn [option_map]; [f_equal; lia | reflexivity].
    + rewrite !solver_in_era by lia. cbn [option_map]. f_equal. lia.
Qed.

(** A positive threshold is never met before height 0. *)
Lemma solver_nonneg :
  forall s rem k,
  0 < rem -> blockHeightForSupply_loop s rem 0 = Some k -> 0 <= k.
Proof.
  intros s. halving s; intros rem k Hrem Hk.
  - rewrite solver_exhausted in Hk by lia. discriminate.
  - destruct (Z_lt_le_dec (s * HALVING_INTERVAL) rem) as [Hgt | Hle].
    + rewrite solver_skip_era, solver_acc in Hk by lia.
      destruct (blockHeightForSupply_loop (s / 2) (rem - s * HALVING_INTERVAL) 0)
        as [k' | ] eqn:Hk'; [ | discriminate].
      apply IH in Hk'; [ | lia]. cbn [option_map] in Hk. apply Some_eq_inv in Hk. subst k.
      unfold HALVING_INTERVAL. lia.
    + rewrite solver_in_era in Hk by lia. apply Some_eq_inv in Hk. subst k.
      pose proof (Math_ceil_div_pos rem s). lia.
Qed.

(** The height returned for a threshold has issued at least the threshold. *)
Lemma solver_reaches :
  forall s rem k,
  blockHeightForSupply_loop s rem 0 = Some k -> rem <= issued (k + 1) s.
Proof.
  intros s. halving s; intros rem k Hk.
  - rewrite solver_exhausted in Hk by lia. discriminate.
  - destruct (Z_lt_le_dec (s * HALVING_INTERVAL) rem) as [Hgt | Hle].
    + rewrite solver_skip_era, solver_acc in Hk by lia.
      destruct (blockHeightForSupply_loop (s / 2) (rem - s * HALVING_INTERVAL) 0)
        as [k' | ] eqn:Hk'; [ | discriminate].
      cbn [option_map] in Hk. apply Some_eq_inv in Hk. subst k.
      assert (0 <= k') by (eapply solver_nonneg; [ | exact Hk']; lia).
      apply IH in Hk'.
      rewrite issued_past_era by lia.
      replace (0 + HALVING_INTERVAL + k' + 1 - HALVING_INTERVAL) with (k' + 1) by lia.
      lia.
    + rewrite solver_in_era in Hk by lia. apply Some_eq_inv in Hk. subst k.
      replace (0 + Math_ceil_div rem s - 1 + 1) with (Math_ceil_div rem s) by lia.
      destruct (Z_le_gt_dec rem 0) as [Hneg | Hpos].
      * pose proof (issued_nonneg s (Math_ceil_div rem s)). lia.
      * pose proof (Math_ceil_div_pos rem s ltac:(lia) ltac:(lia)).
        pose proof (Math_ceil_div_le rem s HALVING_INTERVAL ltac:(lia) ltac:(lia)).
        rewrite issued_within_era by lia.
        apply Math_ceil_div_covers. lia.
Qed.

(** Applied to what [r] blocks have issued, the solver answers and its
    answer is below [r]. *)
Lemma solver_of_issued :
  forall s r, 0 < s -> 0 < r ->
  exists k, blockHeightForSupply_loop s (issued r s) 0 = Some k /\ k + 1 <= r.
Proof.
  intros s. halving s; intros r Hpos Hr; [lia | ].
  destruct (Z_le_gt_dec r HALVING_INTERVAL) as [Hl | Hl].
  - rewrite issued_within_era by lia.
    rewrite solver_in_era by nia.
    rewrite Math_ceil_div_mul by lia.
    exists (0 + r - 1). split; [reflexivity | lia].
  - rewrite issued_past_era by lia.
    destruct (Z_le_gt_dec (s / 2) 0) as [Hz | Hnz].
    + rewrite (issued_none _ (s / 2)) by lia.
      rewrite solver_in_era by lia.
      replace (HALVING_INTERVAL * s + 0) with (HALVING_INTERVAL * s) by lia.
      rewrite Math_ceil_div_mul by lia.
      exists (0 + HALVING_INTERVAL - 1). split; [reflexivity | lia].
    + pose proof (issued_pos (r - HALVING_INTERVAL) (s / 2) ltac:(lia) ltac:(lia)) as Hi.
      rewrite solver_skip_era by lia.
      replace (HALVING_INTERVAL * s + issued (r - HALVING_INTERVAL) (s / 2)
               - s * HALVING_INTERVAL)
        with (issued (r - HALVING_INTERVAL) (s / 2)) by lia.
      rewrite solver_acc.
      destruct (IH (r - HALVING_INTERVAL) ltac:(lia) ltac:(lia)) as (k & Hk & Hle).
      rewrite Hk. cbn [option_map]. eexists. split; [reflexivity | lia].
Qed.

(** A threshold that some number of blocks reaches gets an answer. *)
Lemma solver_answers :
  forall s rem r, 0 < s -> rem <= issued r s ->
  exists k, blockHeightForSupply_loop s rem 0 = Some k.
Proof.
  intros s. halving s; intros rem r Hpos Hrem; [lia | ].
  destruct (Z_lt_le_dec (s * HALVING_INTERVAL) rem) as [Hgt | Hle].
  - rewrite solver_skip_era, solver_acc by lia.
    assert (Hr : HALVING_INTERVAL < r).
    { destruct (Z_le_gt_dec r HALVING_INTERVAL) as [Hl | Hl]; [ | lia].
      exfalso. destruct (Z_le_gt_dec r 0) as [Hr0 | Hr0].
      - rewrite issued_none in Hrem by lia. unfold HALVING_INTERVAL in *. nia.
      - rewrite issued_within_era in Hrem by lia. nia. }
    rewrite issued_past_era in Hrem by lia.
    assert (Hh : 0 < s / 2).
    { destruct (Z_le_gt_dec (s / 2) 0) as [Hz | Hnz]; [ | lia].
      rewrite (issued_none _ (s / 2)) in Hrem by lia. lia. }
    destruct (IH (rem - s * HALVING_INTERVAL) (r - HALVING_INTERVAL) Hh ltac:(lia))
      as (k & Hk).
    rewrite Hk. cbn [option_map]. eexists. reflexivity.
  - rewrite solver_in_era by lia. eexists. reflexivity.
Qed.


Lemma totalIssuance_value : totalIssuance = 2099999997690000.
Proof. vm_compute. reflexivity. Qed.

Lemma totalIssuance_reached :
  totalIssuance = issued (Z.of_nat ERA_COUNT * HALVING_INTERVAL) INITIAL_SUBSIDY_SATS.
Proof. vm_compute. reflexivity. Qed.

Lemma issued_is_sum (r : Z) :
  issued r INITIAL_SUBSIDY_SATS =
  sum_eras (fun k => eraBlocks r k * eraSubsidy INITIAL_SUBSIDY_SATS k) ERA_COUNT.
Proof.
  rewrite (totalSubsidy_loop_closed_form ERA_COUNT r INITIAL_SUBSIDY_SATS 0
             initial_subsidy_range).
  apply Z.add_0_l.
Qed.



(** Initialisation does not throw. *)
Lemma module_init_ok : module_init = inr TARGET_BLOCK_HEIGHT.
Proof. vm_compute. reflexivity. Qed.

(* ===================================================================== *)
(** ** The claims on the issuance model                                   *)
(* ===================================================================== *)

(** The height 6,929,999 is the last block that pays a subsidy at all: it
    is the solver's answer for the total issuance, not for 20,000,000 BTC. *)
Lemma last_subsidy_height : blockHeightForSupply totalIssuance = Some 6929999.
Proof. vm_compute. reflexivity. Qed.

(** C1, as stated: with starting amount 50 * 10^8 and era length 210000 the
    solver would return 6,929,999 for the threshold 20,000,000 * 10^8.  It
    does not. *)
Lemma C1_target_is_not_6929999 :
  INITIAL_SUBSIDY_SATS = 50 * 10 ^ 8 /\
  HALVING_INTERVAL = 210000 /\
  blockHeightForSupply (20000000 * 100000000) <> Some 6929999.
Proof.
  split; [reflexivity | split; [reflexivity | ]].
  vm_compute. discriminate.
Qed.

(** C1, amended: with starting amount 50 * 10^8 and era length 210000,
    [blockHeightForSupply(20000000 * 100000000)] is 939,999 (four full eras,
    840,000 blocks, issue 19.6875 million; 100,000 more blocks at 3.125 per
    block reach 20 million), initialisation does not throw, and that is the
    value bound to [TARGET_BLOCK_HEIGHT]. *)
Theorem C1_target_block_height :
  INITIAL_SUBSIDY_SATS = 50 * 10 ^ 8 /\
  HALVING_INTERVAL = 210000 /\
  TARGET_SATS = 20000000 * 100000000 /\
  blockHeightForSupply (20000000 * 100000000) = Some 939999 /\
  module_init = inr 939999 /\
  TARGET_BLOCK_HEIGHT = 939999.
Proof. repeat split; vm_compute; reflexivity. Qed.

(** 939,999 is the first height at which the issuance reaches the target:
    the threshold is met there and not one block earlier. *)
Lemma target_block_is_first_crossing :
  TARGET_SATS <= totalSubsidyAtHeight (Some TARGET_BLOCK_HEIGHT) /\
  totalSubsidyAtHeight (Some (TARGET_BLOCK_HEIGHT - 1)) < TARGET_SATS.
Proof. split; vm_compute; [discriminate | reflexivity]. Qed.

(** C2: first crossing.  For every counter value [h >= 0] the solver applied
    to the cumulative issuance at [h] returns a height that is at most [h];
    for every threshold [t] with [0 <= t <= totalIssuance] the solver
    returns a height, and the cumulative issuance there is at least [t]. *)
Theorem C2_first_crossing :
  (forall h, 0 <= h ->
     exists k, blockHeightForSupply (totalSubsidyAtHeight (Some h)) = Some k /\ k <= h) /\
  (forall t, 0 <= t <= totalIssuance ->
     exists k, blockHeightForSupply t = Some k /\ t <= totalSubsidyAtHeight (Some k)).
Proof.
  split.
  - intros h Hh. unfold totalSubsidyAtHeight, blockHeightForSupply.
    destruct (Z.ltb_spec h 0) as [Hneg | _]; [lia | ].
    destruct (solver_of_issued INITIAL_SUBSIDY_SATS (h + 1)) as (k & Hk & Hle);
      [vm_compute; reflexivity | lia | ].
    exists k. split; [exact Hk | lia].
  - intros t [H0 Ht]. unfold blockHeightForSupply.
    rewrite totalIssuance_reached in Ht.
    destruct (solver_answers INITIAL_SUBSIDY_SATS t _ ltac:(vm_compute; reflexivity) Ht)
      as (k & Hk).
    exists k. split; [exact Hk | ].
    pose proof (solver_reaches _ _ _ Hk) as Hreach.
    unfold totalSubsidyAtHeight.
    destruct (Z.ltb_spec k 0) as [Hneg | _]; [ | exact Hreach].
    rewrite issued_none in Hreach by lia. exact Hreach.
Qed.

Lemma C2_first_crossing_witness :
  (exists k, blockHeightForSupply (totalSubsidyAtHeight (Some 939999)) = Some k
             /\ k <= 939999) /\
  (exists k, blockHeightForSupply TARGET_SATS = Some k
             /\ TARGET_SATS <= totalSubsidyAtHeight (Some k)).
Proof.
  split.
  - apply (proj1 C2_first_crossing 939999). lia.
  - apply (proj2 C2_first_crossing TARGET_SATS). vm_compute. split; discriminate.
Defined.

(** C4: the cumulative issuance is non-decreasing in the height, never
    negative, zero for a negative height (and for [null]), and for every
    integer height equal to the era summation: the sum over the eras [k] of
    min(blocks left for era k, 210000) times the era's subsidy
    [INITIAL_SUBSIDY_SATS / 2^k]. *)
Theorem C4_issuance_monotone_nonneg_closed_form :
  (forall h1 h2, h1 <= h2 ->
     totalSubsidyAtHeight (Some h1) <= totalSubsidyAtHeight (Some h2)) /\
  (forall h, 0 <= totalSubsidyAtHeight (Some h)) /\
  (forall h, h < 0 -> totalSubsidyAtHeight (Some h) = 0) /\
  totalSubsidyAtHeight None = 0 /\
  (forall h, totalSubsidyAtHeight (Some h) = eraSummation h).
Proof.
  split; [ | split; [ | split; [ | split]]].
  - intros h1 h2 Hh. rewrite !totalSubsidy_is_eraSummation.
    now apply eraSummation_mono.
  - intros h. rewrite totalSubsidy_is_eraSummation. apply eraSummation_nonneg.
  - intros h Hh. unfold totalSubsidyAtHeight.
    destruct (Z.ltb_spec h 0); [reflexivity | lia].
  - reflexivity.
  - apply totalSubsidy_is_eraSummation.
Qed.

Lemma C4_issuance_witness :
  totalSubsidyAtHeight (Some 209999) <= totalSubsidyAtHeight (Some 210000) /\
  totalSubsidyAtHeight (Some (-7)) = 0.
Proof.
  split.
  - apply (proj1 C4_issuance_monotone_nonneg_closed_form 209999 210000). lia.
  - apply (proj1 (proj2 (proj2 C4_issuance_monotone_nonneg_closed_form)) (-7)). lia.
Defined.

(** The sum stops where the schedule does: the subsidy of era 32 is 1, and
    from era 33 on it is 0, so longer sums add nothing. *)
Lemma eraSubsidy_runs_out (k : nat) :
  (ERA_COUNT <= k)%nat -> eraSubsidy INITIAL_SUBSIDY_SATS k = 0.
Proof.
  intros Hk. unfold eraSubsidy. apply Z.div_small.
  split; [vm_compute; discriminate | ].
  apply Z.lt_le_trans with (2 ^ Z.of_nat ERA_COUNT).
  - apply initial_subsidy_range.
  - apply Z.pow_le_mono_r; lia.
Qed.

Lemma totalSubsidyAtHeight_nonneg (h : Z) : 0 <= totalSubsidyAtHeight (Some h).
Proof. rewrite totalSubsidy_is_eraSummation. apply eraSummation_nonneg. Qed.

(** C9: for the threshold 0 the solver returns -1, which is the first era's
    [ceil(0 / subsidy) - 1] and lies outside the counter domain; the
    cumulative issuance at -1 is 0, which meets the threshold; the solver
    returns no non-negative height for the threshold 0, and at every height
    [h >= 0] the threshold 0 was already met at [h - 1]. *)
Theorem C9_zero_threshold :
  blockHeightForSupply 0 = Some (-1) /\
  0 + Math_ceil_div 0 INITIAL_SUBSIDY_SATS - 1 = -1 /\
  totalSubsidyAtHeight (Some (-1)) = 0 /\
  (forall k, 0 <= k -> blockHeightForSupply 0 <> Some k) /\
  (forall h, 0 <= h -> 0 <= totalSubsidyAtHeight (Some (h - 1))).
Proof.
  split; [vm_compute; reflexivity | ].
  split; [vm_compute; reflexivity | ].
  split; [vm_compute; reflexivity | ].
  split.
  - intros k Hk Heq.
    assert (Hm : blockHeightForSupply 0 = Some (-1)) by (vm_compute; reflexivity).
    rewrite Hm in Heq. apply Some_eq_inv in Heq. lia.
  - intros h _. apply totalSubsidyAtHeight_nonneg.
Qed.

Lemma C9_zero_threshold_witness :
  blockHeightForSupply 0 <> Some 0 /\ 0 <= totalSubsidyAtHeight (Some (0 - 1)).
Proof.
  split.
  - apply (proj1 (proj2 (proj2 (proj2 C9_zero_threshold))) 0). lia.
  - apply (proj2 (proj2 (proj2 (proj2 C9_zero_threshold))) 0). lia.
Defined.

(* ===================================================================== *)
(** ** Properties of the rate estimator                                   *)
(* ===================================================================== *)

Section Rationals.

Local Open Scope Qc_scope.

Lemma num_pos (z : Z) : (0 < z)%Z -> 0 < num z.
Proof.
  intros Hz. unfold num, Qclt. cbn [this Q2Qc].
  rewrite !Qred_correct. unfold Qlt, inject_Z. cbn [Qnum Qden]. lia.
Qed.

Lemma Qc_mul_pos (a b : Qc) : 0 < a -> 0 < b -> 0 < a * b.
Proof.
  intros Ha Hb. rewrite <- (Qcmult_0_l b).
  now apply Qcmult_lt_compat_r.
Qed.

Lemma Qc_inv_pos (a : Qc) : 0 < a -> 0 < / a.
Proof.
  unfold Qclt, Qcinv. cbn [this Q2Qc]. rewrite !Qred_correct.
  apply Qinv_lt_0_compat.
Qed.

Lemma Qc_pos_nonzero (a : Qc) : 0 < a -> a <> 0.
Proof. intros Ha Heq. subst a. revert Ha. apply Qcle_not_lt, Qcle_refl. Qed.

End Rationals.

Lemma delta_loop_step (b b' : Block) (rest : list Block) (t0 s0 : Z) :
  delta_loop (b :: b' :: rest) t0 s0 =
  if timestamp b - timestamp b' >? 0
  then delta_loop (b' :: rest) (t0 + (timestamp b - timestamp b')) (s0 + 1)
  else delta_loop (b' :: rest) t0 s0.
Proof. reflexivity. Qed.

(** The counters of the loop only grow, each sample adds at least one
    second, and [samples] moves exactly when some delta is positive. *)
Lemma delta_loop_grows (blocks : list Block) :
  forall t0 s0,
  s0 <= snd (delta_loop blocks t0 s0) /\
  snd (delta_loop blocks t0 s0) - s0 <= fst (delta_loop blocks t0 s0) - t0.
Proof.
  induction blocks as [ | b rest IH]; intros t0 s0; [simpl; lia | ].
  destruct rest as [ | b' rest']; [simpl; lia | ].
  rewrite delta_loop_step.
  destruct (Z.gtb_spec (timestamp b - timestamp b') 0) as [Hpos | Hneg].
  - specialize (IH (t0 + (timestamp b - timestamp b')) (s0 + 1)). lia.
  - apply IH.
Qed.

Lemma has_positive_delta_cons (b b' : Block) (rest : list Block) :
  has_positive_delta (b :: b' :: rest) <->
  timestamp b - timestamp b' > 0 \/ has_positive_delta (b' :: rest).
Proof.
  unfold has_positive_delta. split.
  - intros (i & x & y & Hx & Hy & Hd). destruct i as [ | i].
    + left. simpl in Hx, Hy. congruence.
    + right. exists i, x, y. auto.
  - intros [Hd | (i & x & y & Hx & Hy & Hd)].
    + exists O, b, b'. auto.
    + exists (S i), x, y. auto.
Qed.

Lemma has_positive_delta_short (blocks : list Block) :
  (length blocks < 2)%nat -> ~ has_positive_delta blocks.
Proof.
  intros Hlen (i & x & y & Hx & Hy & _).
  assert (S i < length blocks)%nat by (apply nth_error_Some; congruence).
  lia.
Qed.

Lemma delta_loop_no_sample (blocks : list Block) :
  forall t0 s0,
  snd (delta_loop blocks t0 s0) = s0 <-> ~ has_positive_delta blocks.
Proof.
  induction blocks as [ | b rest IH]; intros t0 s0.
  - split; [intros _; apply has_positive_delta_short; simpl; lia | reflexivity].
  - destruct rest as [ | b' rest'].
    + split; [intros _; apply has_positive_delta_short; simpl; lia | reflexivity].
    + rewrite has_positive_delta_cons, delta_loop_step.
      destruct (Z.gtb_spec (timestamp b - timestamp b') 0) as [Hpos | Hneg].
      * pose proof (delta_loop_grows (b' :: rest')
                      (t0 + (timestamp b - timestamp b')) (s0 + 1)).
        split; [lia | intros Hno; exfalso; apply Hno; left; lia].
      * rewrite IH. split.
        -- intros Hno [Hd | Hd]; [lia | contradiction].
        -- intros Hno Hd. apply Hno. now right.
Qed.

(** [null] exactly when the window is unusable. *)
Lemma calculateAverageBlockTimeMs_null_iff (blocks : list Block) :
  calculateAverageBlockTimeMs blocks = None <->
  (length blocks < 2)%nat \/ ~ has_positive_delta blocks.
Proof.
  unfold calculateAverageBlockTimeMs.
  destruct (Nat.ltb_spec (length blocks) 2) as [Hshort | Hlong].
  - split; [now left | reflexivity].
  - pose proof (delta_loop_no_sample blocks 0 0) as Hno.
    destruct (delta_loop blocks 0 0) as [totalSeconds samples]. cbn [snd] in Hno.
    destruct (Z.eqb_spec samples 0) as [Hz | Hnz].
    + split; [intros _; right; now apply Hno | reflexivity].
    + split; [discriminate | ].
      intros [Hshort | Hnone]; [lia | ]. apply Hno in Hnone. contradiction.
Qed.

(** Every non-null average is strictly positive. *)
Lemma calculateAverageBlockTimeMs_pos (blocks : list Block) (v : Qc) :
  calculateAverageBlockTimeMs blocks = Some v -> (0 < v)%Qc.
Proof.
  unfold calculateAverageBlockTimeMs.
  destruct (length blocks <? 2)%nat; [discriminate | ].
  pose proof (delta_loop_grows blocks 0 0) as Hgrow.
  destruct (delta_loop blocks 0 0) as [totalSeconds samples]. cbn [fst snd] in Hgrow.
  destruct (Z.eqb_spec samples 0) as [Hz | Hnz]; [discriminate | ].
  intros Hv. apply Some_eq_inv in Hv. subst v.
  apply Qc_mul_pos; [ | apply num_pos; lia].
  apply Qc_mul_pos; [apply num_pos; lia | ].
  apply Qc_inv_pos, num_pos. lia.
Qed.

Lemma truthy_average (blocks : list Block) (v : Qc) :
  calculateAverageBlockTimeMs blocks = Some v -> truthy (Some v) = true.
Proof.
  intros Hv. apply calculateAverageBlockTimeMs_pos in Hv.
  unfold truthy. destruct (Qc_eq_dec v (num 0)) as [Heq | _]; [ | reflexivity].
  exfalso. now apply (Qc_pos_nonzero v).
Qed.

(** A window whose timestamps are all the same has no positive delta. *)
Lemma equal_timestamps_no_delta (blocks : list Block) (ts : Z) :
  Forall (fun b => timestamp b = ts) blocks -> ~ has_positive_delta blocks.
Proof.
  intros Hall (i & x & y & Hx & Hy & Hd).
  rewrite Forall_forall in Hall.
  apply nth_error_In in Hx, Hy. apply Hall in Hx, Hy. lia.
Qed.

(* ===================================================================== *)
(** ** The sort of the batch                                              *)
(* ===================================================================== *)

Lemma insert_desc_perm (x : Block) (l : list Block) :
  Permutation (insert_desc x l) (x :: l).
Proof.
  induction l as [ | y l IH]; cbn [insert_desc]; [reflexivity | ].
  destruct (height x <? height y); [ | reflexivity].
  rewrite IH. apply perm_swap.
Qed.

(** The sorted batch holds the blocks of the batch. *)
Lemma sortByHeightDesc_perm (blocks : list Block) :
  Permutation (sortByHeightDesc blocks) blocks.
Proof.
  induction blocks as [ | x l IH]; cbn [sortByHeightDesc fold_right]; [reflexivity | ].
  rewrite insert_desc_perm. now apply perm_skip.
Qed.

Lemma insert_desc_sorted (x : Block) (l : list Block) :
  Sorted (fun a b => height b <= height a) l ->
  Sorted (fun a b => height b <= height a) (insert_desc x l).
Proof.
  induction 1 as [ | y l Hl IH Hy]; cbn [insert_desc].
  - repeat constructor.
  - destruct (Z.ltb_spec (height x) (height y)) as [Hlt | Hge].
    + constructor; [exact IH | ].
      destruct Hy as [ | z l' Hz]; cbn [insert_desc].
      * constructor. lia.
      * destruct (height x <? height z); constructor; lia.
    + constructor; [now constructor | constructor; lia].
Qed.

(** Heights never increase along the sorted batch, so its head is a block
    of maximal height. *)
Lemma sortByHeightDesc_sorted (blocks : list Block) :
  Sorted (fun a b => height b <= height a) (sortByHeightDesc blocks).
Proof.
  induction blocks as [ | x l IH]; cbn [sortByHeightDesc fold_right].
  - constructor.
  - now apply insert_desc_sorted.
Qed.

Lemma tip_is_highest (first : Block) (rest : list Block) (b : Block) :
  In b (first :: rest) ->
  height b <= height (hd first (sortByHeightDesc (first :: rest))).
Proof.
  intros Hin.
  apply (Permutation_in _ (Permutation_sym (sortByHeightDesc_perm (first :: rest)))) in Hin.
  pose proof (sortByHeightDesc_sorted (first :: rest)) as Hsorted.
  apply Sorted_StronglySorted in Hsorted; [ | intros x y z; lia].
  destruct (sortByHeightDesc (first :: rest)) as [ | tip l]; [contradiction | ].
  cbn [hd]. destruct Hin as [<- | Hin]; [lia | ].
  apply StronglySorted_inv in Hsorted as [_ Hall].
  rewrite Forall_forall in Hall. now apply Hall.
Qed.

(* ===================================================================== *)
(** ** Properties of the projection engine and the coordinator            *)
(* ===================================================================== *)

Lemma set_avgBlockTimeMs_same (s : State) : set_avgBlockTimeMs (avgBlockTimeMs s) s = s.
Proof. destruct s; reflexivity. Qed.

(** The projection writes [estimatedTargetTimeMs] and nothing else. *)
Lemma updateEstimatedTargetTime_frame (n a : option Z) (s : State) :
  currentBlock (updateEstimatedTargetTime n a s) = currentBlock s /\
  avgBlockTimeMs (updateEstimatedTargetTime n a s) = avgBlockTimeMs s /\
  lastBlockTimeMs (updateEstimatedTargetTime n a s) = lastBlockTimeMs s /\
  estimateMode (updateEstimatedTargetTime n a s) = estimateMode s.
Proof. destruct a, n; repeat split; reflexivity. Qed.

Lemma isNewBlock_changed (s : State) (h : Z) :
  currentBlock s <> Some h -> isNewBlock s h = true.
Proof.
  unfold isNewBlock. destruct (currentBlock s) as [cur | ]; [ | reflexivity].
  intros Hne. destruct (Z.eqb_spec h cur); [congruence | reflexivity].
Qed.

Lemma isNewBlock_same (s : State) (h : Z) :
  currentBlock s = Some h -> isNewBlock s h = false.
Proof. unfold isNewBlock. intros ->. now rewrite Z.eqb_refl. Qed.

Lemma fetchBlockData_primary_failed
    (response : option (list Block)) (fallback : option Z) (now clock : Z) (w : World) :
  primary_failed response ->
  fetchBlockData response fallback now clock w =
  fetchBlockHeightFallback fallback now clock w.
Proof. intros [-> | ->]; reflexivity. Qed.

(** A successful primary poll, in one equation. *)
Lemma fetchBlockData_success
    (first : Block) (rest : list Block) (fallback : option Z) (now clock : Z) (w : World) :
  let sortedBlocks := sortByHeightDesc (first :: rest) in
  let tipBlock := hd first sortedBlocks in
  let s2 := set_avgBlockTimeMs (polledRate sortedBlocks (st w))
              (set_currentBlock (Some (height tipBlock)) (st w)) in
  fetchBlockData (Some (first :: rest)) fallback now clock w =
  (mkWorld
     (if reprojects tipBlock (st w)
      then updateEstimatedTargetTime
             (Some (Z.max 0 (TARGET_BLOCK_HEIGHT - height tipBlock)))
             (Some (timestamp tipBlock * 1000))
             (set_lastBlockTimeMs (Some (timestamp tipBlock * 1000)) s2)
      else s2)
     (updateLastUpdateTime clock (dom w)),
   true).
Proof.
  intros sortedBlocks tipBlock s2. subst s2. unfold fetchBlockData, polledRate.
  fold sortedBlocks. fold tipBlock.
  destruct (calculateAverageBlockTimeMs sortedBlocks) as [v | ] eqn:Havg.
  - rewrite (truthy_average _ _ Havg). reflexivity.
  - destruct w as [[cur avg anchor est mode] d]. reflexivity.
Qed.

Lemma fetchBlockData_rate
    (first : Block) (rest : list Block) (fallback : option Z) (now clock : Z) (w : World) :
  avgBlockTimeMs (st (fst (fetchBlockData (Some (first :: rest)) fallback now clock w))) =
  polledRate (sortByHeightDesc (first :: rest)) (st w).
Proof.
  rewrite fetchBlockData_success. cbn [fst st].
  destruct (reprojects _ _); [ | reflexivity].
  now rewrite (proj1 (proj2 (updateEstimatedTargetTime_frame _ _ _))).
Qed.

Lemma fetchBlockHeightFallback_rate (fallback : option Z) (now clock : Z) (w : World) :
  avgBlockTimeMs (st (fst (fetchBlockHeightFallback fallback now clock w))) =
  avgBlockTimeMs (st w).
Proof.
  unfold fetchBlockHeightFallback. destruct fallback as [h | ]; [ | reflexivity].
  cbn [fst st]. destruct (_ || _); [ | reflexivity].
  now rewrite (proj1 (proj2 (updateEstimatedTargetTime_frame _ _ _))).
Qed.

Lemma polledRate_pos (sortedBlocks : list Block) (s : State) :
  (0 < avgBlockTimeMs s)%Qc -> (0 < polledRate sortedBlocks s)%Qc.
Proof.
  intros Hs. unfold polledRate.
  destruct (calculateAverageBlockTimeMs sortedBlocks) as [v | ] eqn:Havg;
    [now apply (calculateAverageBlockTimeMs_pos sortedBlocks) | exact Hs].
Qed.

Lemma updateDisplay_state (w : World) : st (updateDisplay w) = st w.
Proof. unfold updateDisplay. destruct (calculateRemaining (st w)); reflexivity. Qed.

Lemma onEstimateModeChange_rate (checked : bool) (w : World) :
  avgBlockTimeMs (st (onEstimateModeChange checked w)) = avgBlockTimeMs (st w).
Proof.
  unfold onEstimateModeChange. rewrite updateDisplay_state. cbv zeta. cbn [st].
  set (s1 := set_estimateMode _ (st w)).
  destruct (currentBlock s1), (lastBlockTimeMs s1); reflexivity.
Qed.

(** Each operation keeps the stored rate strictly positive. *)
Lemma step_rate_pos (e : Event) (w : World) :
  (0 < avgBlockTimeMs (st w))%Qc -> (0 < avgBlockTimeMs (st (step e w)))%Qc.
Proof.
  intros Hpos. destruct e as [response fallback now clock | checked | ]; cbn [step].
  - destruct response as [[ | first rest] | ].
    + rewrite fetchBlockData_primary_failed by (now right).
      now rewrite fetchBlockHeightFallback_rate.
    + rewrite fetchBlockData_rate. now apply polledRate_pos.
    + rewrite fetchBlockData_primary_failed by (now left).
      now rewrite fetchBlockHeightFallback_rate.
  - now rewrite onEstimateModeChange_rate.
  - now rewrite updateDisplay_state.
Qed.

Lemma reachable_rate_pos (w : World) : reachable w -> (0 < avgBlockTimeMs (st w))%Qc.
Proof.
  induction 1 as [ | e w Hw IH].
  - apply num_pos. vm_compute. reflexivity.
  - now apply step_rate_pos.
Qed.

Lemma reachable_run (events : list Event) : reachable (run events initial_world).
Proof.
  unfold run. generalize initial_world, reach_init.
  induction events as [ | e events IH]; intros w Hw; [exact Hw | ].
  cbn [fold_left]. apply IH. now apply reach_step.
Qed.

(* ===================================================================== *)
(** ** The claims on the estimator, the projection and the coordinator    *)
(* ===================================================================== *)

(** C8: projecting zero remaining increments returns the anchor itself:
    for every anchor and every state, whatever its rate and rate mode,
    [updateEstimatedTargetTime(0, anchor)] sets [estimatedTargetTimeMs] to
    exactly [anchor]. *)
Theorem C8_project_zero_is_anchor (anchor : Z) (s : State) :
  estimatedTargetTimeMs (updateEstimatedTargetTime (Some 0) (Some anchor) s) =
  Some (num anchor).
Proof.
  unfold updateEstimatedTargetTime. cbn [estimatedTargetTimeMs set_estimatedTargetTimeMs].
  f_equal. change (num 0) with 0%Qc. ring.
Qed.

(** C6: the estimator returns [null] exactly when the window has fewer than
    two entries or no adjacent pair with a strictly positive timestamp
    delta, in particular when all timestamps are equal; a primary poll whose
    estimate is [null] leaves [avgBlockTimeMs] as it was, and
    [avgBlockTimeMs] starts as the fixed nominal 600000 ms. *)
Theorem C6_estimator_null_keeps_rate :
  (forall blocks,
     calculateAverageBlockTimeMs blocks = None <->
     (length blocks < 2)%nat \/ ~ has_positive_delta blocks) /\
  (forall blocks ts,
     Forall (fun b => timestamp b = ts) blocks ->
     calculateAverageBlockTimeMs blocks = None) /\
  (forall first rest fallback now clock w,
     calculateAverageBlockTimeMs (sortByHeightDesc (first :: rest)) = None ->
     avgBlockTimeMs (st (fst (fetchBlockData (Some (first :: rest)) fallback now clock w)))
     = avgBlockTimeMs (st w)) /\
  avgBlockTimeMs initial_state = num 600000.
Proof.
  split; [exact calculateAverageBlockTimeMs_null_iff | ].
  split; [ | split; [ | reflexivity]].
  - intros blocks ts Hall. apply calculateAverageBlockTimeMs_null_iff. right.
    now apply (equal_timestamps_no_delta blocks ts).
  - intros first rest fallback now clock w Hnull.
    rewrite fetchBlockData_rate. unfold polledRate. now rewrite Hnull.
Qed.

Lemma C6_estimator_null_witness :
  calculateAverageBlockTimeMs [mkBlock 11 500; mkBlock 10 500; mkBlock 9 500] = None /\
  avgBlockTimeMs
    (st (fst (fetchBlockData
                (Some [mkBlock 9 500; mkBlock 11 500; mkBlock 10 500]) None 0 0
                initial_world)))
  = avgBlockTimeMs (st initial_world).
Proof.
  split.
  - apply (proj1 (proj2 C6_estimator_null_keeps_rate) _ 500).
    repeat constructor.
  - apply (proj1 (proj2 (proj2 C6_estimator_null_keeps_rate))).
    reflexivity.
Defined.

(** C10: the active rate is always strictly positive: [avgBlockTimeMs]
    starts as 600000, every non-null estimate is strictly positive, and in
    every world reachable by polls, toggle flips and display refreshes both
    the stored rate and [getActiveBlockTimeMs()] are strictly positive,
    whichever rate mode is selected. *)
Theorem C10_active_rate_positive :
  avgBlockTimeMs initial_state = num 600000 /\
  (forall blocks v, calculateAverageBlockTimeMs blocks = Some v -> (0 < v)%Qc) /\
  (forall w, reachable w ->
     (0 < avgBlockTimeMs (st w))%Qc /\
     (0 < getActiveBlockTimeMs (st w))%Qc /\
     (forall mode, (0 < getActiveBlockTimeMs (set_estimateMode mode (st w)))%Qc)).
Proof.
  split; [reflexivity | split; [exact calculateAverageBlockTimeMs_pos | ]].
  intros w Hw. pose proof (reachable_rate_pos w Hw) as Hpos.
  assert (Hfixed : (0 < num FIXED_BLOCK_TIME_MS)%Qc)
    by (apply num_pos; vm_compute; reflexivity).
  split; [exact Hpos | split].
  - unfold getActiveBlockTimeMs. destruct (estimateMode (st w)); assumption.
  - intros mode. unfold getActiveBlockTimeMs. destruct mode; assumption.
Qed.

Lemma C10_active_rate_witness :
  (0 < (num 600 / num 1) * num 1000)%Qc /\
  (0 < getActiveBlockTimeMs
         (st (run [EvFetch (Some [mkBlock 100 1000; mkBlock 99 400]) None 0 0;
                   EvToggle false; EvDisplay] initial_world)))%Qc.
Proof.
  split.
  - apply (proj1 (proj2 C10_active_rate_positive) [mkBlock 100 1000; mkBlock 99 400]).
    reflexivity.
  - exact (proj1 (proj2 (proj2 (proj2 C10_active_rate_positive) _
                   (reach_step _ _ (reach_step _ _ (reach_step _ _ reach_init)))))).
Defined.

(** C5: when the primary poll fails and the fallback delivers a counter
    value [h] different from the stored one, the poll succeeds, the counter
    becomes [h], the anchor becomes [Date.now()], the stored rate and the
    rate mode are left as they were, and the projection is recomputed from
    that anchor and the rate active before the poll. *)
Theorem C5_fallback_new_counter
    (response : option (list Block)) (h now clock : Z) (w : World) :
  primary_failed response ->
  currentBlock (st w) <> Some h ->
  let result := fetchBlockData response (Some h) now clock w in
  snd result = true /\
  currentBlock (st (fst result)) = Some h /\
  lastBlockTimeMs (st (fst result)) = Some now /\
  avgBlockTimeMs (st (fst result)) = avgBlockTimeMs (st w) /\
  estimateMode (st (fst result)) = estimateMode (st w) /\
  estimatedTargetTimeMs (st (fst result)) =
    Some (num now + num (Z.max 0 (TARGET_BLOCK_HEIGHT - h))
                    * getActiveBlockTimeMs (st w))%Qc.
Proof.
  intros Hfail Hnew result. subst result.
  rewrite fetchBlockData_primary_failed by assumption.
  unfold fetchBlockHeightFallback.
  rewrite (isNewBlock_changed _ _ Hnew). cbn [orb fst snd st].
  repeat split; reflexivity.
Qed.

Lemma C5_fallback_new_counter_witness :
  let result := fetchBlockData None (Some 900000) 1700000000000 1700000000001
                               initial_world in
  snd result = true /\
  currentBlock (st (fst result)) = Some 900000 /\
  lastBlockTimeMs (st (fst result)) = Some 1700000000000 /\
  avgBlockTimeMs (st (fst result)) = avgBlockTimeMs (st initial_world) /\
  estimateMode (st (fst result)) = estimateMode (st initial_world) /\
  estimatedTargetTimeMs (st (fst result)) =
    Some (num 1700000000000 + num (Z.max 0 (TARGET_BLOCK_HEIGHT - 900000))
                              * getActiveBlockTimeMs (st initial_world))%Qc.
Proof.
  apply (C5_fallback_new_counter None 900000 1700000000000 1700000000001 initial_world).
  - left. reflexivity.
  - discriminate.
Defined.

(** C7: when the primary poll and the fallback both fail, [fetchBlockData]
    returns [false], the element [current-block] gets the [error] class and
    the text of the error, and the estimate state keeps every field:
    [currentBlock], [avgBlockTimeMs], [lastBlockTimeMs] and
    [estimatedTargetTimeMs] (and the rate mode); the display refresh that
    follows the poll does not touch the estimate state either. *)
Theorem C7_total_failure_keeps_state
    (response : option (list Block)) (now clock : Z) (w : World) :
  primary_failed response ->
  let result := fetchBlockData response None now clock w in
  snd result = false /\
  currentBlock_error (dom (fst result)) = true /\
  currentBlock_text (dom (fst result)) = TextApiError /\
  st (fst result) = st w /\
  currentBlock (st (fst result)) = currentBlock (st w) /\
  avgBlockTimeMs (st (fst result)) = avgBlockTimeMs (st w) /\
  lastBlockTimeMs (st (fst result)) = lastBlockTimeMs (st w) /\
  estimatedTargetTimeMs (st (fst result)) = estimatedTargetTimeMs (st w) /\
  st (pollCycle response None now clock w) = st w.
Proof.
  intros Hfail result. subst result. unfold pollCycle.
  rewrite updateDisplay_state.
  rewrite fetchBlockData_primary_failed by assumption.
  repeat split; reflexivity.
Qed.

Lemma C7_total_failure_witness :
  let w := fst (fetchBlockData (Some [mkBlock 100 1000; mkBlock 99 400]) None 0 0
                               initial_world) in
  let result := fetchBlockData (Some []) None 5 6 w in
  snd result = false /\
  currentBlock_error (dom (fst result)) = true /\
  currentBlock_text (dom (fst result)) = TextApiError /\
  st (fst result) = st w /\
  currentBlock (st (fst result)) = currentBlock (st w) /\
  avgBlockTimeMs (st (fst result)) = avgBlockTimeMs (st w) /\
  lastBlockTimeMs (st (fst result)) = lastBlockTimeMs (st w) /\
  estimatedTargetTimeMs (st (fst result)) = estimatedTargetTimeMs (st w) /\
  st (pollCycle (Some []) None 5 6 w) = st w.
Proof.
  intros w. apply (C7_total_failure_keeps_state (Some []) 5 6 w).
  right. reflexivity.
Defined.

(** What the page shows once the poll's display refresh has run: with a
    known counter value [updateStatsDisplay] removes the [error] class
    again and writes the stale height; only before the first successful
    poll does the error indicator stay. *)
Lemma pollCycle_total_failure_display
    (response : option (list Block)) (now clock : Z) (w : World) :
  primary_failed response ->
  dom (pollCycle response None now clock w) =
  match currentBlock (st w) with
  | Some cur => mkDom false (TextHeight cur) (lastUpdate_time (dom w))
  | None => mkDom true TextApiError (lastUpdate_time (dom w))
  end.
Proof.
  intros Hfail. unfold pollCycle.
  rewrite fetchBlockData_primary_failed by assumption.
  cbn [fetchBlockHeightFallback fst]. unfold updateDisplay, calculateRemaining.
  cbn [st dom]. destruct (currentBlock (st w)); reflexivity.
Qed.

(** After a successful primary poll the state holds the tip's height, the
    tip's timestamp as anchor, and a projection. *)
Lemma fetchBlockData_post
    (first : Block) (rest : list Block) (fallback : option Z) (now clock : Z) (w : World) :
  let tipBlock := hd first (sortByHeightDesc (first :: rest)) in
  let w' := fst (fetchBlockData (Some (first :: rest)) fallback now clock w) in
  currentBlock (st w') = Some (height tipBlock) /\
  lastBlockTimeMs (st w') = Some (timestamp tipBlock * 1000) /\
  estimatedTargetTimeMs (st w') <> None.
Proof.
  intros tipBlock w'. subst w'. rewrite fetchBlockData_success. fold tipBlock.
  cbn [fst st]. destruct (reprojects tipBlock (st w)) eqn:Hguard.
  - repeat split; try reflexivity. discriminate.
  - unfold reprojects in Hguard.
    apply orb_false_elim in Hguard as [Hguard Hanchor].
    apply orb_false_elim in Hguard as [_ Hest].
    cbn [currentBlock lastBlockTimeMs estimatedTargetTimeMs
         set_avgBlockTimeMs set_currentBlock].
    split; [reflexivity | split].
    + destruct (lastBlockTimeMs (st w)) as [t | ]; [ | discriminate].
      apply negb_false_iff, Z.eqb_eq in Hanchor. now subst t.
    + destruct (estimatedTargetTimeMs (st w)); [discriminate | discriminate].
Qed.

(** The projection after a successful primary poll: recomputed from the
    tip's timestamp and the rate active after the poll when the test of
    line 158 holds, otherwise the one before the poll. *)
Lemma fetchBlockData_projection
    (first : Block) (rest : list Block) (fallback : option Z) (now clock : Z) (w : World) :
  let sortedBlocks := sortByHeightDesc (first :: rest) in
  let tipBlock := hd first sortedBlocks in
  let w' := fst (fetchBlockData (Some (first :: rest)) fallback now clock w) in
  estimatedTargetTimeMs (st w') =
  if reprojects tipBlock (st w)
  then Some (num (timestamp tipBlock * 1000)
             + num (Z.max 0 (TARGET_BLOCK_HEIGHT - height tipBlock))
               * getActiveBlockTimeMs (st w'))%Qc
  else estimatedTargetTimeMs (st w).
Proof.
  intros sortedBlocks tipBlock w'. subst w'. rewrite fetchBlockData_success.
  fold sortedBlocks. fold tipBlock. cbn [fst st].
  destruct (reprojects tipBlock (st w)); reflexivity.
Qed.

(** A primary poll that finds the stored counter value, the stored anchor
    and a projection leaves all three alone and only adopts the rate. *)
Lemma fetchBlockData_same_tip
    (first : Block) (rest : list Block) (fallback : option Z) (now clock : Z) (w : World) :
  let sortedBlocks := sortByHeightDesc (first :: rest) in
  let tipBlock := hd first sortedBlocks in
  currentBlock (st w) = Some (height tipBlock) ->
  lastBlockTimeMs (st w) = Some (timestamp tipBlock * 1000) ->
  estimatedTargetTimeMs (st w) <> None ->
  fetchBlockData (Some (first :: rest)) fallback now clock w =
  (mkWorld (set_avgBlockTimeMs (polledRate sortedBlocks (st w)) (st w))
           (updateLastUpdateTime clock (dom w)),
   true).
Proof.
  intros sortedBlocks tipBlock Hcur Hanchor Hest.
  rewrite fetchBlockData_success. fold sortedBlocks. fold tipBlock.
  assert (Hguard : reprojects tipBlock (st w) = false).
  { unfold reprojects. rewrite (isNewBlock_same _ _ Hcur), Hanchor, Z.eqb_refl.
    destruct (estimatedTargetTimeMs (st w)); [reflexivity | congruence]. }
  rewrite Hguard. do 2 f_equal.
  destruct w as [[cur avg anchor est mode] d]. cbn in Hcur |- *.
  now rewrite Hcur.
Qed.

(** C3, as stated: two successful primary polls in a row report the same
    tip (height 100, timestamp 1000) with batches whose averages differ
    (600 s, then 300 s); the claim has the projection recomputed with the
    new rate.  The second poll adopts the new rate and keeps the projection
    of the first, which is not what the new rate projects. *)
Lemma C3_same_tip_new_rate_not_reprojected :
  let batch1 := [mkBlock 100 1000; mkBlock 99 400] in
  let batch2 := [mkBlock 100 1000; mkBlock 99 700] in
  let w1 := fst (fetchBlockData (Some batch1) None 0 0 initial_world) in
  let result := fetchBlockData (Some batch2) None 0 0 w1 in
  let w2 := fst result in
  snd result = true /\
  hd_error (sortByHeightDesc batch1) = Some (mkBlock 100 1000) /\
  hd_error (sortByHeightDesc batch2) = Some (mkBlock 100 1000) /\
  getActiveBlockTimeMs (st w1) = num 600000 /\
  getActiveBlockTimeMs (st w2) = num 300000 /\
  calculateRemaining (st w2) = calculateRemaining (st w1) /\
  estimatedTargetTimeMs (st w2) = estimatedTargetTimeMs (st w1) /\
  estimatedTargetTimeMs (st w2) <>
    Some (num (1000 * 1000)
          + num (Z.max 0 (TARGET_BLOCK_HEIGHT - 100)) * getActiveBlockTimeMs (st w2))%Qc.
Proof.
  intros batch1 batch2 w1 result w2.
  assert (Hrate1 : getActiveBlockTimeMs (st w1) = num 600000)
    by (apply Qc_is_canon; vm_compute; reflexivity).
  assert (Hrate2 : getActiveBlockTimeMs (st w2) = num 300000)
    by (apply Qc_is_canon; vm_compute; reflexivity).
  split; [reflexivity | ].
  split; [reflexivity | ].
  split; [reflexivity | ].
  split; [exact Hrate1 | ].
  split; [exact Hrate2 | ].
  split; [reflexivity | ].
  split; [reflexivity | ].
  rewrite Hrate2. intros Heq. apply Some_eq_inv in Heq.
  apply (f_equal this) in Heq. vm_compute in Heq. discriminate.
Qed.

(** C3, amended: when two successful primary polls in a row report the same
    counter value and the same tip timestamp, the second poll adopts the
    average of its batch as [avgBlockTimeMs] (when it is not [null]) and
    leaves the projection of the first poll in place, together with the
    counter value, the anchor and the counter-derived fields; a primary
    poll recomputes the projection exactly when the counter value changed,
    no projection exists or the tip timestamp differs from the anchor, and
    then from the tip timestamp and the rate active after the poll. *)
Theorem C3_same_tip_keeps_projection :
  (forall first1 rest1 first2 rest2 fallback1 fallback2 now1 clock1 now2 clock2 w0,
     let tip1 := hd first1 (sortByHeightDesc (first1 :: rest1)) in
     let tip2 := hd first2 (sortByHeightDesc (first2 :: rest2)) in
     height tip2 = height tip1 ->
     timestamp tip2 = timestamp tip1 ->
     let w1 := fst (fetchBlockData (Some (first1 :: rest1)) fallback1 now1 clock1 w0) in
     let result := fetchBlockData (Some (first2 :: rest2)) fallback2 now2 clock2 w1 in
     let w2 := fst result in
     snd result = true /\
     estimatedTargetTimeMs (st w2) = estimatedTargetTimeMs (st w1) /\
     estimatedTargetTimeMs (st w1) <> None /\
     avgBlockTimeMs (st w2) = polledRate (sortByHeightDesc (first2 :: rest2)) (st w1) /\
     currentBlock (st w2) = currentBlock (st w1) /\
     lastBlockTimeMs (st w2) = lastBlockTimeMs (st w1) /\
     estimateMode (st w2) = estimateMode (st w1) /\
     calculateRemaining (st w2) = calculateRemaining (st w1)) /\
  (forall first rest fallback now clock w,
     let tipBlock := hd first (sortByHeightDesc (first :: rest)) in
     let w' := fst (fetchBlockData (Some (first :: rest)) fallback now clock w) in
     estimatedTargetTimeMs (st w') =
     if reprojects tipBlock (st w)
     then Some (num (timestamp tipBlock * 1000)
                + num (Z.max 0 (TARGET_BLOCK_HEIGHT - height tipBlock))
                  * getActiveBlockTimeMs (st w'))%Qc
     else estimatedTargetTimeMs (st w)).
Proof.
  split; [ | exact fetchBlockData_projection].
  intros first1 rest1 first2 rest2 fallback1 fallback2 now1 clock1 now2 clock2 w0
         tip1 tip2 Hheight Htime w1 result w2.
  destruct (fetchBlockData_post first1 rest1 fallback1 now1 clock1 w0)
    as (Hcur & Hanchor & Hest).
  fold tip1 in Hcur, Hanchor. fold w1 in Hcur, Hanchor, Hest.
  subst w2 result.
  rewrite fetchBlockData_same_tip; fold tip2;
    [ | now rewrite Hheight | now rewrite Htime | exact Hest].
  cbn [fst snd st]. repeat split; try reflexivity; try exact Hest.
Qed.

Lemma C3_same_tip_keeps_projection_witness :
  let w1 := fst (fetchBlockData (Some [mkBlock 100 1000; mkBlock 99 400]) None 0 0
                                initial_world) in
  let w2 := fst (fetchBlockData (Some [mkBlock 100 1000; mkBlock 99 700]) None 0 0 w1) in
  estimatedTargetTimeMs (st w2) = estimatedTargetTimeMs (st w1) /\
  calculateRemaining (st w2) = calculateRemaining (st w1).
Proof.
  intros w1 w2.
  destruct (proj1 C3_same_tip_keeps_projection
              (mkBlock 100 1000) [mkBlock 99 400] (mkBlock 100 1000) [mkBlock 99 700]
              None None 0 0 0 0 initial_world eq_refl eq_refl)
    as (_ & Hest & _ & _ & _ & _ & _ & Hrem).
  split; [exact Hest | exact Hrem].
Defined.

(* ===================================================================== *)
(** ** More on the issuance model                                         *)
(* ===================================================================== *)

Lemma issued_from_second_era (r s : Z) :
  HALVING_INTERVAL <= r -> 0 < s ->
  issued r s = HALVING_INTERVAL * s + issued (r - HALVING_INTERVAL) (s / 2).
Proof.
  intros Hr Hs. destruct (Z.eq_dec r HALVING_INTERVAL) as [-> | Hne].
  - rewrite issued_within_era by (unfold HALVING_INTERVAL; lia).
    rewrite issued_none by lia. lia.
  - apply issued_past_era; lia.
Qed.

Lemma eraSubsidy_of_zero (k : nat) : eraSubsidy 0 k = 0.
Proof. unfold eraSubsidy. apply Z.div_0_l. apply Z.pow_nonzero; lia. Qed.

(** One more block adds the subsidy of the era the block lies in. *)
Lemma issued_step :
  forall s r, 0 <= s -> 0 <= r ->
  issued (r + 1) s - issued r s = eraSubsidy s (Z.to_nat (r / HALVING_INTERVAL)).
Proof.
  intros s. halving s; intros r Hnonneg Hr.
  - assert (s = 0) by lia. subst s.
    rewrite !issued_none, eraSubsidy_of_zero by lia. reflexivity.
  - destruct (Z_lt_le_dec r HALVING_INTERVAL) as [Hin | Hout].
    + rewrite Z.div_small by lia. cbn [Z.to_nat]. rewrite eraSubsidy_O.
      rewrite (issued_within_era (r + 1)) by lia.
      destruct (Z.eq_dec r 0) as [-> | Hr0].
      * rewrite issued_none by lia. lia.
      * rewrite issued_within_era by lia. lia.
    + rewrite (issued_from_second_era (r + 1)), (issued_from_second_era r) by lia.
      replace (r + 1 - HALVING_INTERVAL) with (r - HALVING_INTERVAL + 1) by lia.
      pose proof (half_nonneg s Hs) as Hhalf.
      pose proof (IH (r - HALVING_INTERVAL) Hhalf ltac:(lia)) as Hstep.
      replace (r / HALVING_INTERVAL) with ((r - HALVING_INTERVAL) / HALVING_INTERVAL + 1).
      * assert (0 <= (r - HALVING_INTERVAL) / HALVING_INTERVAL)
          by (apply Z.div_pos; unfold HALVING_INTERVAL in *; lia).
        rewrite Z2Nat.inj_add by lia.
        rewrite Nat.add_1_r, eraSubsidy_S. lia.
      * replace r with (r - HALVING_INTERVAL + 1 * HALVING_INTERVAL) at 2 by lia.
        rewrite Z.div_add by (unfold HALVING_INTERVAL; lia). reflexivity.
Qed.

Lemma totalSubsidy_as_issued (h : Z) :
  -1 <= h -> totalSubsidyAtHeight (Some h) = issued (h + 1) INITIAL_SUBSIDY_SATS.
Proof.
  intros Hh. unfold totalSubsidyAtHeight.
  destruct (Z.ltb_spec h 0) as [Hneg | _]; [ | reflexivity].
  rewrite issued_none by lia. reflexivity.
Qed.

Lemma totalSubsidyAtHeight_mono (h1 h2 : Z) :
  h1 <= h2 -> totalSubsidyAtHeight (Some h1) <= totalSubsidyAtHeight (Some h2).
Proof. intros H. rewrite !totalSubsidy_is_eraSummation. now apply eraSummation_mono. Qed.

Lemma eraSubsidy_pays (k : nat) :
  (k < ERA_COUNT)%nat -> 1 <= eraSubsidy INITIAL_SUBSIDY_SATS k.
Proof.
  intros Hk. unfold eraSubsidy.
  assert (Hpow : 0 < 2 ^ Z.of_nat k) by (apply Z.pow_pos_nonneg; lia).
  apply Z.div_le_lower_bound; [exact Hpow | ].
  apply Z.le_trans with (2 ^ 32).
  - rewrite Z.mul_1_r. apply Z.pow_le_mono_r; unfold ERA_COUNT in Hk; lia.
  - vm_compute. discriminate.
Qed.

Lemma totalSubsidy_step (h : Z) :
  0 <= h ->
  totalSubsidyAtHeight (Some h) - totalSubsidyAtHeight (Some (h - 1)) =
  eraSubsidy INITIAL_SUBSIDY_SATS (Z.to_nat (h / HALVING_INTERVAL)).
Proof.
  intros Hh. rewrite !totalSubsidy_as_issued by lia.
  replace (h - 1 + 1) with h by lia.
  apply issued_step; [vm_compute; discriminate | exact Hh].
Qed.

(** The block at height [h] adds exactly the subsidy of its era,
    [floor(50 * 10^8 / 2^(h div 210000))]: the issuance at [h] is the
    issuance at [h - 1] plus that amount. *)
Theorem issuance_increment_is_block_subsidy (h : Z) :
  0 <= h ->
  totalSubsidyAtHeight (Some h) - totalSubsidyAtHeight (Some (h - 1)) =
  eraSubsidy INITIAL_SUBSIDY_SATS (Z.to_nat (h / HALVING_INTERVAL)).
Proof. exact (totalSubsidy_step h). Qed.

Lemma issuance_increment_witness :
  totalSubsidyAtHeight (Some 840000) - totalSubsidyAtHeight (Some (840000 - 1)) =
  eraSubsidy INITIAL_SUBSIDY_SATS (Z.to_nat (840000 / HALVING_INTERVAL)).
Proof. apply (issuance_increment_is_block_subsidy 840000). lia. Defined.

Lemma era_index_bound (h : Z) :
  0 <= h <= 6929999 -> (Z.to_nat (h / HALVING_INTERVAL) < ERA_COUNT)%nat.
Proof.
  intros Hh. unfold ERA_COUNT.
  assert (h / HALVING_INTERVAL < 33)
    by (apply Z.div_lt_upper_bound; unfold HALVING_INTERVAL; lia).
  assert (0 <= h / HALVING_INTERVAL)
    by (apply Z.div_pos; unfold HALVING_INTERVAL; lia).
  lia.
Qed.

Lemma totalSubsidy_strict_step (h : Z) :
  0 <= h <= 6929999 ->
  totalSubsidyAtHeight (Some (h - 1)) < totalSubsidyAtHeight (Some h).
Proof.
  intros Hh.
  pose proof (totalSubsidy_step h ltac:(lia)) as Hstep.
  pose proof (eraSubsidy_pays _ (era_index_bound h Hh)). lia.
Qed.

(** Up to the last subsidy-paying block, 6,929,999, every block strictly
    raises the issuance. *)
Theorem issuance_strictly_increasing (h : Z) :
  0 <= h <= 6929999 ->
  totalSubsidyAtHeight (Some (h - 1)) < totalSubsidyAtHeight (Some h).
Proof. exact (totalSubsidy_strict_step h). Qed.

Lemma issuance_strictly_increasing_witness :
  totalSubsidyAtHeight (Some (6929999 - 1)) < totalSubsidyAtHeight (Some 6929999).
Proof. apply (issuance_strictly_increasing 6929999). lia. Defined.

Lemma issuance_saturates_aux :
  (forall h, 6929999 <= h -> totalSubsidyAtHeight (Some h) = 2099999997690000) /\
  (forall h, totalSubsidyAtHeight (Some h) < TOTAL_BTC_SUPPLY * SATS_PER_BTC).
Proof.
  split.
  - intros h Hh. rewrite totalSubsidy_is_eraSummation, <- totalIssuance_value.
    unfold eraSummation, totalIssuance. apply sum_eras_ext. intros k Hk.
    f_equal. unfold eraBlocks, HALVING_INTERVAL. unfold ERA_COUNT in Hk. lia.
  - intros h. rewrite totalSubsidy_is_eraSummation.
    pose proof (eraSummation_le_total h). rewrite totalIssuance_value in *.
    unfold TOTAL_BTC_SUPPLY, SATS_PER_BTC. lia.
Qed.

(** From block 6,929,999 on the issuance stays at the total of the
    schedule, 2,099,999,997,690,000 units, and at no height does it reach
    [TOTAL_BTC_SUPPLY * SATS_PER_BTC]. *)
Theorem issuance_saturates :
  (forall h, 6929999 <= h -> totalSubsidyAtHeight (Some h) = 2099999997690000) /\
  (forall h, totalSubsidyAtHeight (Some h) < TOTAL_BTC_SUPPLY * SATS_PER_BTC).
Proof. exact issuance_saturates_aux. Qed.

Lemma issuance_saturates_witness :
  totalSubsidyAtHeight (Some 99999999) = 2099999997690000.
Proof. apply (proj1 issuance_saturates 99999999). lia. Defined.

Lemma Math_ceil_div_tight (a b : Z) : 0 < b -> (Math_ceil_div a b - 1) * b < a.
Proof.
  intros Hb. unfold Math_ceil_div.
  pose proof (Z.mul_succ_div_gt (- a) b Hb). lia.
Qed.

(** One block before the height returned for a positive threshold the
    threshold is not yet met. *)
Lemma solver_not_earlier :
  forall s rem k,
  0 < rem -> blockHeightForSupply_loop s rem 0 = Some k -> issued k s < rem.
Proof.
  intros s. halving s; intros rem k Hrem Hk.
  - rewrite solver_exhausted in Hk by lia. discriminate.
  - destruct (Z_lt_le_dec (s * HALVING_INTERVAL) rem) as [Hgt | Hle].
    + rewrite solver_skip_era, solver_acc in Hk by lia.
      destruct (blockHeightForSupply_loop (s / 2) (rem - s * HALVING_INTERVAL) 0)
        as [k' | ] eqn:Hk'; [ | discriminate].
      cbn [option_map] in Hk. apply Some_eq_inv in Hk. subst k.
      assert (0 <= k') by (eapply solver_nonneg; [ | exact Hk']; lia).
      apply IH in Hk'; [ | lia].
      rewrite issued_from_second_era by lia.
      replace (0 + HALVING_INTERVAL + k' - HALVING_INTERVAL) with k' by lia.
      lia.
    + rewrite solver_in_era in Hk by lia. apply Some_eq_inv in Hk. subst k.
      pose proof (Math_ceil_div_pos rem s ltac:(lia) ltac:(lia)).
      pose proof (Math_ceil_div_le rem s HALVING_INTERVAL ltac:(lia) ltac:(lia)).
      pose proof (Math_ceil_div_tight rem s ltac:(lia)).
      destruct (Z.eq_dec (Math_ceil_div rem s) 1) as [Hone | Hmore].
      * rewrite issued_none by lia. lia.
      * rewrite issued_within_era by lia. lia.
Qed.

Lemma issued_mono (r1 r2 : Z) :
  r1 <= r2 -> issued r1 INITIAL_SUBSIDY_SATS <= issued r2 INITIAL_SUBSIDY_SATS.
Proof.
  intros Hr. rewrite !issued_is_sum. apply sum_eras_le. intros k _.
  apply Z.mul_le_mono_nonneg_r.
  - apply eraSubsidy_nonneg. apply initial_subsidy_range.
  - now apply eraBlocks_mono.
Qed.

(** The solver's answer is the first crossing.  For a threshold [t] with
    [0 < t <= totalIssuance] it returns a height [k >= 0] at which the
    issuance has reached [t], the issuance at [k - 1] is still below [t],
    and no height at which the issuance has reached [t] is smaller. *)
Theorem blockHeightForSupply_least (t : Z) :
  0 < t <= totalIssuance ->
  exists k,
    blockHeightForSupply t = Some k /\
    0 <= k /\
    t <= totalSubsidyAtHeight (Some k) /\
    totalSubsidyAtHeight (Some (k - 1)) < t /\
    (forall h, t <= totalSubsidyAtHeight (Some h) -> k <= h).
Proof.
  intros [Hpos Hle]. unfold blockHeightForSupply.
  rewrite totalIssuance_reached in Hle.
  destruct (solver_answers INITIAL_SUBSIDY_SATS t _ ltac:(vm_compute; reflexivity) Hle)
    as (k & Hk).
  pose proof (solver_nonneg _ _ _ Hpos Hk) as Hk0.
  pose proof (solver_reaches _ _ _ Hk) as Hreach.
  pose proof (solver_not_earlier _ _ _ Hpos Hk) as Hnot.
  exists k. split; [exact Hk | split; [exact Hk0 | ]].
  rewrite !totalSubsidy_as_issued by lia.
  replace (k - 1 + 1) with k by lia.
  split; [exact Hreach | split; [exact Hnot | ]].
  intros h Hh. destruct (Z_le_gt_dec k h) as [Hok | Hbad]; [exact Hok | exfalso].
  destruct (Z_lt_le_dec h 0) as [Hneg | Hnonneg].
  - unfold totalSubsidyAtHeight in Hh.
    destruct (Z.ltb_spec h 0); lia.
  - rewrite totalSubsidy_as_issued in Hh by lia.
    pose proof (issued_mono (h + 1) k ltac:(lia)). lia.
Qed.

Lemma blockHeightForSupply_least_witness :
  exists k,
    blockHeightForSupply TARGET_SATS = Some k /\
    0 <= k /\
    TARGET_SATS <= totalSubsidyAtHeight (Some k) /\
    totalSubsidyAtHeight (Some (k - 1)) < TARGET_SATS /\
    (forall h, TARGET_SATS <= totalSubsidyAtHeight (Some h) -> k <= h).
Proof.
  apply (blockHeightForSupply_least TARGET_SATS).
  vm_compute. split; [reflexivity | discriminate].
Defined.

(** Up to the last subsidy-paying block the solver inverts the issuance
    exactly: the height found for the issuance at [h] is [h] itself. *)
Theorem blockHeightForSupply_inverts_issuance (h : Z) :
  0 <= h <= 6929999 ->
  blockHeightForSupply (totalSubsidyAtHeight (Some h)) = Some h.
Proof.
  intros Hh. rewrite totalSubsidy_as_issued by lia. unfold blockHeightForSupply.
  destruct (solver_of_issued INITIAL_SUBSIDY_SATS (h + 1)) as (k & Hk & Hle);
    [vm_compute; reflexivity | lia | ].
  rewrite Hk. f_equal.
  destruct (Z.eq_dec k h) as [Heq | Hne]; [exact Heq | exfalso].
  pose proof (solver_reaches _ _ _ Hk) as Hreach.
  pose proof (issued_mono (k + 1) h ltac:(lia)) as Hmono.
  pose proof (totalSubsidy_strict_step h Hh) as Hstrict.
  rewrite !totalSubsidy_as_issued in Hstrict by lia.
  replace (h - 1 + 1) with h in Hstrict by lia. lia.
Qed.

Lemma blockHeightForSupply_inverts_issuance_witness :
  blockHeightForSupply (totalSubsidyAtHeight (Some 6929999)) = Some 6929999.
Proof. apply (blockHeightForSupply_inverts_issuance 6929999). lia. Defined.

(** The solver never moves backwards: a larger reachable threshold gets a
    height that is at least as large. *)
Theorem blockHeightForSupply_monotone (t1 t2 k1 k2 : Z) :
  t1 <= t2 ->
  blockHeightForSupply t1 = Some k1 ->
  blockHeightForSupply t2 = Some k2 ->
  k1 <= k2.
Proof.
  unfold blockHeightForSupply. intros Ht H1 H2.
  destruct (Z_le_gt_dec k1 k2) as [Hok | Hbad]; [exact Hok | exfalso].
  destruct (Z_lt_le_dec 0 t1) as [Hpos | Hnp].
  - pose proof (solver_not_earlier _ _ _ Hpos H1) as Hnot.
    pose proof (solver_reaches _ _ _ H2) as Hreach.
    pose proof (issued_mono (k2 + 1) k1 ltac:(lia)). lia.
  - assert (Hinit : 0 < INITIAL_SUBSIDY_SATS) by reflexivity.
    assert (Hera : INITIAL_SUBSIDY_SATS * HALVING_INTERVAL = 1050000000000000)
      by reflexivity.
    rewrite solver_in_era in H1 by lia.
    apply Some_eq_inv in H1.
    assert (Hc1 : Math_ceil_div t1 INITIAL_SUBSIDY_SATS <= 0)
      by (apply Math_ceil_div_le; lia).
    destruct (Z_lt_le_dec 0 t2) as [Hpos2 | Hnp2].
    + pose proof (solver_nonneg _ _ _ Hpos2 H2). lia.
    + rewrite solver_in_era in H2 by lia.
      apply Some_eq_inv in H2.
      assert (Math_ceil_div t1 INITIAL_SUBSIDY_SATS
              <= Math_ceil_div t2 INITIAL_SUBSIDY_SATS).
      { apply Math_ceil_div_le; [exact Hinit | ].
        pose proof (Math_ceil_div_covers t2 INITIAL_SUBSIDY_SATS Hinit). lia. }
      lia.
Qed.

Lemma blockHeightForSupply_monotone_witness : 939999 <= 6929999.
Proof.
  apply (blockHeightForSupply_monotone TARGET_SATS totalIssuance).
  - vm_compute. discriminate.
  - vm_compute. reflexivity.
  - vm_compute. reflexivity.
Defined.

(* ===================================================================== *)
(** ** Remaining amounts and the statistics shown                         *)
(* ===================================================================== *)

Lemma TARGET_BLOCK_HEIGHT_value : TARGET_BLOCK_HEIGHT = 939999.
Proof. vm_compute. reflexivity. Qed.

Lemma issuance_at_target : totalSubsidyAtHeight (Some 939999) = TARGET_SATS.
Proof. vm_compute. reflexivity. Qed.

(** The issuance has reached the target amount exactly from the target
    height on. *)
Lemma issuance_reaches_target_iff (cur : Z) :
  TARGET_SATS <= totalSubsidyAtHeight (Some cur) <-> TARGET_BLOCK_HEIGHT <= cur.
Proof.
  rewrite TARGET_BLOCK_HEIGHT_value. split.
  - intros Hreach. destruct (Z_le_gt_dec 939999 cur) as [Hok | Hbad]; [exact Hok | exfalso].
    pose proof (totalSubsidyAtHeight_mono cur 939998 ltac:(lia)) as Hmono.
    pose proof (proj2 target_block_is_first_crossing) as Hbefore.
    rewrite TARGET_BLOCK_HEIGHT_value in Hbefore.
    replace (939999 - 1) with 939998 in Hbefore by lia. lia.
  - intros Hcur. rewrite <- issuance_at_target.
    now apply totalSubsidyAtHeight_mono.
Qed.

(** [calculateRemaining()] yields nothing exactly while no counter value
    is known.  With a counter value [cur], both remainders are never
    negative, the blocks left and the amount left reach zero together, and
    that exactly from the target height on; up to the target height the
    amount mined and the amount left add up to the target amount. *)
Theorem calculateRemaining_consistent (s : State) :
  (calculateRemaining s = None <-> currentBlock s = None) /\
  (forall cur data,
     currentBlock s = Some cur ->
     calculateRemaining s = Some data ->
     0 <= blocksLeft data /\
     0 <= btcLeftSats data <= TARGET_SATS /\
     (blocksLeft data = 0 <-> TARGET_BLOCK_HEIGHT <= cur) /\
     (btcLeftSats data = 0 <-> TARGET_BLOCK_HEIGHT <= cur) /\
     (cur <= TARGET_BLOCK_HEIGHT ->
      totalMinedSats data + btcLeftSats data = TARGET_SATS)).
Proof.
  unfold calculateRemaining. split.
  - destruct (currentBlock s); split; congruence.
  - intros cur data Hcur Hdata. rewrite Hcur in Hdata.
    apply Some_eq_inv in Hdata. subst data. cbn [blocksLeft btcLeftSats totalMinedSats].
    pose proof (totalSubsidyAtHeight_nonneg cur) as Hnonneg.
    pose proof (issuance_reaches_target_iff cur) as Hiff.
    assert (Hup : cur <= TARGET_BLOCK_HEIGHT ->
                  totalSubsidyAtHeight (Some cur) <= TARGET_SATS).
    { intros Hle. rewrite <- issuance_at_target, <- TARGET_BLOCK_HEIGHT_value.
      now apply totalSubsidyAtHeight_mono. }
    destruct Hiff as [Hreached Hafter].
    assert (0 <= TARGET_SATS) by (vm_compute; discriminate).
    repeat split; intros; lia.
Qed.

Lemma calculateRemaining_consistent_witness :
  let s := set_currentBlock (Some 939998) initial_state in
  let data := mkRemaining 1 1999999687500000 312500000 in
  0 <= blocksLeft data /\
  0 <= btcLeftSats data <= TARGET_SATS /\
  (blocksLeft data = 0 <-> TARGET_BLOCK_HEIGHT <= 939998) /\
  (btcLeftSats data = 0 <-> TARGET_BLOCK_HEIGHT <= 939998) /\
  (939998 <= TARGET_BLOCK_HEIGHT ->
   totalMinedSats data + btcLeftSats data = TARGET_SATS).
Proof.
  intros s data.
  apply (proj2 (calculateRemaining_consistent s) 939998 data).
  - reflexivity.
  - vm_compute. reflexivity.
Defined.

(** The page says that the target is reached exactly when the amount
    mined has reached the target amount, and otherwise shows the date
    [Date.now() + msLeft] when a projection exists. *)
Theorem estimatedDateText_reached_iff (s : State) (data : Remaining) (msLeft : option Qc) (now : Z) :
  calculateRemaining s = Some data ->
  (estimatedDateText data msLeft now = DateReached <-> TARGET_SATS <= totalMinedSats data) /\
  (totalMinedSats data < TARGET_SATS ->
   forall ms, msLeft = Some ms ->
   estimatedDateText data msLeft now = DateAt (num now + ms)%Qc).
Proof.
  unfold calculateRemaining. destruct (currentBlock s) as [cur | ]; [ | discriminate].
  intros Hdata. apply Some_eq_inv in Hdata. subst data.
  unfold estimatedDateText. cbn [blocksLeft totalMinedSats].
  pose proof (issuance_reaches_target_iff cur) as Hiff.
  destruct (Z.eqb_spec (Z.max 0 (TARGET_BLOCK_HEIGHT - cur)) 0) as [Hz | Hnz].
  - split; [split; [intros _; apply Hiff; lia | reflexivity] | ].
    intros Hlt. exfalso. assert (TARGET_BLOCK_HEIGHT <= cur) by lia.
    apply Hiff in H. lia.
  - split.
    + split.
      * destruct msLeft; discriminate.
      * intros Hreach. apply Hiff in Hreach. lia.
    + intros _ ms ->. reflexivity.
Qed.

Lemma estimatedDateText_reached_witness :
  estimatedDateText (mkRemaining 0 2000000000000000 0) None 5 = DateReached
  <-> TARGET_SATS <= totalMinedSats (mkRemaining 0 2000000000000000 0).
Proof.
  apply (estimatedDateText_reached_iff (set_currentBlock (Some 939999) initial_state)).
  vm_compute. reflexivity.
Defined.

(* ===================================================================== *)
(** ** Rational numbers behind the display                                *)
(* ===================================================================== *)

Section RationalFacts.

Local Open Scope Qc_scope.

Lemma this_num (z : Z) : (this (num z) == inject_Z z)%Q.
Proof. unfold num. cbn [this Q2Qc]. apply Qred_correct. Qed.

Lemma this_mult (a b : Qc) : (this (a * b)%Qc == this a * this b)%Q.
Proof. unfold Qcmult. cbn [this Q2Qc]. apply Qred_correct. Qed.


Lemma this_minus (a b : Qc) : (this (a - b)%Qc == this a - this b)%Q.
Proof.
  unfold Qcminus, Qcplus, Qcopp. cbn [this Q2Qc].
  rewrite !Qred_correct. reflexivity.
Qed.

Lemma this_div (a b : Qc) : (this (a / b)%Qc == this a / this b)%Q.
Proof.
  unfold Qcdiv, Qcmult, Qcinv. cbn [this Q2Qc].
  rewrite !Qred_correct. reflexivity.
Qed.

Lemma num_le (a b : Z) : (a <= b)%Z -> num a <= num b.
Proof.
  intros Hab. unfold Qcle. rewrite !this_num.
  unfold Qle, inject_Z. cbn [Qnum Qden]. lia.
Qed.

Lemma num_lt (a b : Z) : (a < b)%Z -> num a < num b.
Proof.
  intros Hab. unfold Qclt. rewrite !this_num.
  unfold Qlt, inject_Z. cbn [Qnum Qden]. lia.
Qed.


Lemma Math_floor_nonneg (x : Qc) : num 0 <= x -> (0 <= Math_floor x)%Z.
Proof.
  intros Hx. unfold Math_floor.
  change 0%Z with (Qfloor (this (num 0))). now apply Qfloor_resp_le.
Qed.

(** [x / 1000] keeps the sign of [x]. *)
Lemma div_1000_nonneg (x : Qc) : num 0 <= x -> num 0 <= x / num 1000.
Proof.
  unfold Qcle. rewrite this_div, !this_num. intros Hx.
  apply Qle_shift_div_l; [reflexivity | ]. now rewrite Qmult_0_l.
Qed.


(** The floor of [x / 1000] brackets [x] between whole thousands. *)
Lemma Math_floor_div_1000 (x : Qc) :
  let t := Math_floor (x / num 1000) in
  num (t * 1000) <= x /\ x < num ((t + 1) * 1000).
Proof.
  intros t. subst t. unfold Math_floor, Qcle, Qclt.
  pose proof (Qfloor_le (this (x / num 1000))) as Hlo.
  pose proof (Qlt_floor (this (x / num 1000))) as Hhi.
  set (f := Qfloor (this (x / num 1000))) in *. clearbody f.
  rewrite this_div, this_num in Hlo, Hhi.
  rewrite !this_num, !inject_Z_mult.
  assert (Hback : (this x / inject_Z 1000 * inject_Z 1000 == this x)%Q) by field.
  split.
  - apply (Qmult_le_compat_r _ _ (inject_Z 1000)) in Hlo; [ | discriminate].
    now rewrite Hback in Hlo.
  - apply (Qmult_lt_compat_r _ _ (inject_Z 1000)) in Hhi; [ | reflexivity].
    now rewrite Hback in Hhi.
Qed.


End RationalFacts.

(* ===================================================================== *)
(** ** The countdown and the texts shown                                  *)
(* ===================================================================== *)

(** The progress shown is the share of [TOTAL_BTC_SUPPLY] mined, in
    percent; it is never negative and stays strictly below 100, so the
    cap of [Math.min(..., 100)] never applies. *)
Theorem progressPercent_below_100 (s : State) (data : Remaining) :
  calculateRemaining s = Some data ->
  progressPercent data =
    ((num (totalMinedSats data) / num (TOTAL_BTC_SUPPLY * SATS_PER_BTC)) * num 100)%Qc /\
  (num 0 <= progressPercent data)%Qc /\
  (progressPercent data < num 100)%Qc.
Proof.
  unfold calculateRemaining. destruct (currentBlock s) as [cur | ]; [ | discriminate].
  intros Hdata. apply Some_eq_inv in Hdata. subst data. cbn [totalMinedSats].
  pose proof (totalSubsidyAtHeight_nonneg cur) as Hlo.
  pose proof (proj2 issuance_saturates_aux cur) as Hhi.
  set (mined := totalSubsidyAtHeight (Some cur)) in *. clearbody mined.
  assert (Hshare : (num 0 <= num mined / num (TOTAL_BTC_SUPPLY * SATS_PER_BTC) * num 100
                    /\ num mined / num (TOTAL_BTC_SUPPLY * SATS_PER_BTC) * num 100
                       < num 100)%Qc).
  { unfold Qcle, Qclt. rewrite this_mult, this_div, !this_num.
    change (TOTAL_BTC_SUPPLY * SATS_PER_BTC) with 2100000000000000 in *.
    unfold Qle, Qlt, Qdiv, Qmult, Qinv, inject_Z. cbn [Qnum Qden Z.mul Pos.mul].
    split; lia. }
  unfold progressPercent. cbn [totalMinedSats]. unfold Math_min.
  destruct (Qclt_le_dec _ _) as [Hover | Hunder].
  - exfalso. destruct Hshare as [_ Hlt].
    exact (Qclt_not_le _ _ Hlt (Qclt_le_weak _ _ Hover)).
  - split; [reflexivity | exact Hshare].
Qed.

Lemma countdownOf_parts (msLeft : Qc) :
  (num 0 <= msLeft)%Qc ->
  let c := countdownOf msLeft in
  let totalSeconds := Math_floor (msLeft / num 1000)%Qc in
  0 <= days c /\
  0 <= hours c < 24 /\
  0 <= mins c < 60 /\
  0 <= secs c < 60 /\
  days c * 86400 + hours c * 3600 + mins c * 60 + secs c = totalSeconds /\
  (num (totalSeconds * 1000) <= msLeft)%Qc /\
  (msLeft < num ((totalSeconds + 1) * 1000))%Qc.
Proof.
  intros Hms c totalSeconds.
  pose proof (Math_floor_nonneg _ (div_1000_nonneg _ Hms)) as Ht.
  pose proof (Math_floor_div_1000 msLeft) as [Hlo Hhi].
  fold totalSeconds in Ht, Hlo, Hhi.
  subst c. unfold countdownOf. fold totalSeconds. cbn [days hours mins secs].
  clearbody totalSeconds.
  rewrite !Z.rem_mod_nonneg by lia.
  repeat split; try assumption; Z.div_mod_to_equations; lia.
Qed.

(** For a remaining time that is not negative, the countdown splits the
    whole seconds [floor(msLeft / 1000)] into days, hours below 24, minutes
    below 60 and seconds below 60, and the four parts add up to the whole
    seconds again, which are at most [msLeft / 1000] and less than one
    second short of it. *)
Theorem countdown_decomposition (msLeft : Qc) :
  (num 0 <= msLeft)%Qc ->
  let c := countdownOf msLeft in
  let totalSeconds := Math_floor (msLeft / num 1000)%Qc in
  0 <= days c /\
  0 <= hours c < 24 /\
  0 <= mins c < 60 /\
  0 <= secs c < 60 /\
  days c * 86400 + hours c * 3600 + mins c * 60 + secs c = totalSeconds /\
  (num (totalSeconds * 1000) <= msLeft)%Qc /\
  (msLeft < num ((totalSeconds + 1) * 1000))%Qc.
Proof. exact (countdownOf_parts msLeft). Qed.

Lemma countdown_decomposition_witness :
  let c := countdownOf (num 90061999) in
  0 <= days c /\
  0 <= hours c < 24 /\
  0 <= mins c < 60 /\
  0 <= secs c < 60 /\
  days c * 86400 + hours c * 3600 + mins c * 60 + secs c
    = Math_floor (num 90061999 / num 1000)%Qc /\
  (num (Math_floor (num 90061999 / num 1000)%Qc * 1000) <= num 90061999)%Qc /\
  (num 90061999 < num ((Math_floor (num 90061999 / num 1000)%Qc + 1) * 1000))%Qc.
Proof.
  apply (countdown_decomposition (num 90061999)).
  vm_compute. discriminate.
Defined.

(** *** Two-digit fields *)

Section DecimalStrings.

Import Ascii.AsciiSyntax.
Local Open Scope char_scope.








End DecimalStrings.





(** *** The duration text *)






(** *** The remaining time *)

Lemma Math_max0_spec (x : Qc) :
  (num 0 <= Math_max0 x)%Qc /\
  ((x <= num 0)%Qc -> Math_max0 x = num 0) /\
  ((num 0 < x)%Qc -> Math_max0 x = x).
Proof.
  unfold Math_max0. destruct (Qclt_le_dec (num 0) x) as [Hpos | Hnp].
  - split; [now apply Qclt_le_weak | split; [ | reflexivity]].
    intros Hle. exfalso. exact (Qclt_not_le _ _ Hpos Hle).
  - split; [apply Qcle_refl | split; [reflexivity | ]].
    intros Hpos. exfalso. exact (Qclt_not_le _ _ Hpos Hnp).
Qed.

(** [updateDisplay] has a remaining time exactly when a projection exists;
    it is never negative, it is the distance from [Date.now()] to the
    projection while the projection lies ahead, and once the projection is
    reached it is 0 and the countdown shows all zeros. *)
Theorem displayMsLeft_clamped (s : State) (now : Z) :
  (displayMsLeft s now = None <-> estimatedTargetTimeMs s = None) /\
  (forall estimate, estimatedTargetTimeMs s = Some estimate ->
     exists ms,
       displayMsLeft s now = Some ms /\
       (num 0 <= ms)%Qc /\
       ((num now < estimate)%Qc -> ms = (estimate - num now)%Qc) /\
       ((estimate <= num now)%Qc ->
          ms = num 0 /\
          updateCountdownDisplay (Some ms) = ("00", "00", "00", "00"))).
Proof.
  unfold displayMsLeft. split.
  - destruct (estimatedTargetTimeMs s); split; congruence.
  - intros estimate ->.
    destruct (Math_max0_spec (estimate - num now)%Qc) as (Hnonneg & Hzero & Hpos).
    eexists. split; [reflexivity | split; [exact Hnonneg | split]].
    + intros Hahead. apply Hpos.
      apply (proj1 (Qclt_minus_iff (num now) estimate)) in Hahead. exact Hahead.
    + intros Hpast.
      assert (Hms : Math_max0 (estimate - num now)%Qc = num 0).
      { apply Hzero. apply Qcnot_lt_le. intros Hlt.
        apply (proj2 (Qclt_minus_iff (num now) estimate)) in Hlt.
        exact (Qclt_not_le _ _ Hlt Hpast). }
      rewrite Hms. split; reflexivity.
Qed.

Lemma displayMsLeft_clamped_witness :
  let s := set_estimatedTargetTimeMs (Some (num 5000)) initial_state in
  exists ms,
    displayMsLeft s 7000 = Some ms /\
    (num 0 <= ms)%Qc /\
    ((num 7000 < num 5000)%Qc -> ms = (num 5000 - num 7000)%Qc) /\
    ((num 5000 <= num 7000)%Qc ->
       ms = num 0 /\
       updateCountdownDisplay (Some ms) = ("00", "00", "00", "00")).
Proof.
  intros s. apply (proj2 (displayMsLeft_clamped s 7000) (num 5000)). reflexivity.
Defined.

(* ===================================================================== *)
(** ** More on the feed update coordinator                                *)
(* ===================================================================== *)

Lemma set_currentBlock_same (s : State) (h : Z) :
  currentBlock s = Some h -> set_currentBlock (Some h) s = s.
Proof. destruct s as [cur avg anchor est mode]. cbn. now intros ->. Qed.

(** A poll fails exactly when the primary poll fails and the fallback
    delivers nothing; then the page's last-update time and the estimate
    state stay.  A poll that succeeds stamps the last-update time and
    leaves the error indicator of the page as it found it.  When the
    primary poll succeeds, neither the fallback's answer nor [Date.now()]
    is looked at. *)
Theorem fetchBlockData_outcome
    (response : option (list Block)) (fallback : option Z) (now clock : Z) (w : World) :
  let result := fetchBlockData response fallback now clock w in
  (snd result = false <-> primary_failed response /\ fallback = None) /\
  (snd result = false ->
     st (fst result) = st w /\
     lastUpdate_time (dom (fst result)) = lastUpdate_time (dom w)) /\
  (snd result = true ->
     dom (fst result) = updateLastUpdateTime clock (dom w)) /\
  (~ primary_failed response ->
     forall fallback' now',
       fetchBlockData response fallback' now' clock w = result).
Proof.
  intros result. subst result.
  destruct response as [[ | first rest] | ].
  - rewrite fetchBlockData_primary_failed by (now right).
    destruct fallback as [h | ]; cbn [fetchBlockHeightFallback fst snd st dom].
    + repeat split; try discriminate; try reflexivity.
      * intros [_ Hnone]. discriminate.
      * intros Hok. exfalso. apply Hok. now right.
    + repeat split; try discriminate; try reflexivity.
      * now right.
      * intros Hok. exfalso. apply Hok. now right.
  - rewrite fetchBlockData_success. cbn [fst snd dom].
    repeat split; try discriminate; try reflexivity.
    + intros [[Hnone | Hempty] _]; discriminate.
    + intros _ fallback' now'. now rewrite fetchBlockData_success.
  - rewrite fetchBlockData_primary_failed by (now left).
    destruct fallback as [h | ]; cbn [fetchBlockHeightFallback fst snd st dom].
    + repeat split; try discriminate; try reflexivity.
      * intros [_ Hnone]. discriminate.
      * intros Hok. exfalso. apply Hok. now left.
    + repeat split; try discriminate; try reflexivity.
      * now left.
      * intros Hok. exfalso. apply Hok. now left.
Qed.

Lemma fetchBlockData_outcome_witness :
  let result := fetchBlockData (Some [mkBlock 100 1000; mkBlock 99 400]) None 0 7
                               initial_world in
  dom (fst result) = updateLastUpdateTime 7 (dom initial_world) /\
  (forall fallback' now',
     fetchBlockData (Some [mkBlock 100 1000; mkBlock 99 400]) fallback' now' 7
                    initial_world = result).
Proof.
  intros result.
  destruct (fetchBlockData_outcome (Some [mkBlock 100 1000; mkBlock 99 400]) None 0 7
                                   initial_world) as (_ & _ & Hdom & Hindep).
  split.
  - apply Hdom. reflexivity.
  - apply Hindep. intros [Hnone | Hempty]; discriminate.
Defined.

(** When the primary poll fails and the fallback reports the counter value
    already stored, with a projection in place, the estimate state stays
    as it is: the anchor is not moved to [Date.now()]. *)
Theorem fallback_same_counter_keeps_state
    (response : option (list Block)) (h now clock : Z) (w : World) :
  primary_failed response ->
  currentBlock (st w) = Some h ->
  estimatedTargetTimeMs (st w) <> None ->
  let result := fetchBlockData response (Some h) now clock w in
  snd result = true /\ st (fst result) = st w.
Proof.
  intros Hfail Hcur Hest result. subst result.
  rewrite fetchBlockData_primary_failed by assumption.
  unfold fetchBlockHeightFallback.
  rewrite (isNewBlock_same _ _ Hcur), (set_currentBlock_same _ _ Hcur).
  destruct (estimatedTargetTimeMs (st w)); [ | congruence].
  split; reflexivity.
Qed.

Lemma fallback_same_counter_witness :
  let w := fst (fetchBlockData (Some [mkBlock 100 1000; mkBlock 99 400]) None 0 0
                               initial_world) in
  let result := fetchBlockData None (Some 100) 123456789 5 w in
  snd result = true /\ st (fst result) = st w.
Proof.
  intros w. apply (fallback_same_counter_keeps_state None 100 123456789 5 w).
  - now left.
  - reflexivity.
  - discriminate.
Defined.

(** Polling the same batch twice changes nothing the second time: the
    estimate state after the second poll is the state after the first. *)
Theorem fetchBlockData_same_batch_idempotent
    (first : Block) (rest : list Block)
    (fallback1 fallback2 : option Z) (now1 clock1 now2 clock2 : Z) (w : World) :
  let w1 := fst (fetchBlockData (Some (first :: rest)) fallback1 now1 clock1 w) in
  st (fst (fetchBlockData (Some (first :: rest)) fallback2 now2 clock2 w1)) = st w1.
Proof.
  intros w1.
  destruct (fetchBlockData_post first rest fallback1 now1 clock1 w)
    as (Hcur & Hanchor & Hest).
  fold w1 in Hcur, Hanchor, Hest.
  rewrite fetchBlockData_same_tip by assumption. cbn [fst st].
  assert (Hrate : polledRate (sortByHeightDesc (first :: rest)) (st w1)
                  = avgBlockTimeMs (st w1)).
  { unfold polledRate.
    destruct (calculateAverageBlockTimeMs (sortByHeightDesc (first :: rest)))
      as [v | ] eqn:Havg; [ | reflexivity].
    subst w1. rewrite fetchBlockData_rate. unfold polledRate. now rewrite Havg. }
  rewrite Hrate. apply set_avgBlockTimeMs_same.
Qed.

(** The rate-mode toggle keeps the counter value, the stored rate and the
    anchor, and the last flip wins: two flips in a row leave the world the
    second flip alone would leave. *)
Theorem onEstimateModeChange_last_wins (checked checked' : bool) (w : World) :
  currentBlock (st (onEstimateModeChange checked w)) = currentBlock (st w) /\
  avgBlockTimeMs (st (onEstimateModeChange checked w)) = avgBlockTimeMs (st w) /\
  lastBlockTimeMs (st (onEstimateModeChange checked w)) = lastBlockTimeMs (st w) /\
  estimateMode (st (onEstimateModeChange checked w)) =
    (if checked then average else fixed) /\
  onEstimateModeChange checked (onEstimateModeChange checked' w) =
  onEstimateModeChange checked w.
Proof.
  destruct w as [[cur avg anchor est mode] d].
  destruct cur as [c | ], anchor as [a | ], checked, checked';
    repeat split; reflexivity.
Qed.

(** After a poll cycle whose poll succeeded the page shows the counter
    value without the error indicator, and the last-update time of the
    poll. *)
Theorem pollCycle_success_display
    (response : option (list Block)) (fallback : option Z) (now clock : Z) (w : World) :
  snd (fetchBlockData response fallback now clock w) = true ->
  exists h,
    currentBlock (st (pollCycle response fallback now clock w)) = Some h /\
    dom (pollCycle response fallback now clock w) =
      mkDom false (TextHeight h) (Some clock).
Proof.
  intros Hok. unfold pollCycle.
  assert (Hcur : exists h,
            currentBlock (st (fst (fetchBlockData response fallback now clock w))) = Some h
            /\ lastUpdate_time (dom (fst (fetchBlockData response fallback now clock w)))
               = Some clock).
  { destruct response as [[ | first rest] | ].
    - rewrite fetchBlockData_primary_failed in Hok |- * by (now right).
      destruct fallback as [h | ]; [ | discriminate]. exists h.
      cbn [fetchBlockHeightFallback fst st dom]. split; [ | reflexivity].
      destruct (_ || _); reflexivity.
    - destruct (fetchBlockData_post first rest fallback now clock w) as (Hc & _ & _).
      eexists. split; [exact Hc | ]. rewrite fetchBlockData_success. reflexivity.
    - rewrite fetchBlockData_primary_failed in Hok |- * by (now left).
      destruct fallback as [h | ]; [ | discriminate]. exists h.
      cbn [fetchBlockHeightFallback fst st dom]. split; [ | reflexivity].
      destruct (_ || _); reflexivity. }
  destruct Hcur as (h & Hcur & Hstamp). exists h.
  rewrite updateDisplay_state. split; [exact Hcur | ].
  unfold updateDisplay, calculateRemaining. rewrite Hcur. cbn [dom]. now rewrite Hstamp.
Qed.

Lemma pollCycle_success_display_witness :
  exists h,
    currentBlock (st (pollCycle None (Some 900000) 3 4 initial_world)) = Some h /\
    dom (pollCycle None (Some 900000) 3 4 initial_world) =
      mkDom false (TextHeight h) (Some 4).
Proof.
  apply (pollCycle_success_display None (Some 900000) 3 4 initial_world).
  reflexivity.
Defined.

(* ===================================================================== *)
(** ** Invariants of the estimate state                                   *)
(* ===================================================================== *)

Lemma getActiveBlockTimeMs_pos (s : State) :
  (num 0 < avgBlockTimeMs s)%Qc -> (num 0 < getActiveBlockTimeMs s)%Qc.
Proof.
  intros Hpos. unfold getActiveBlockTimeMs. destruct (estimateMode s); [exact Hpos | ].
  apply num_pos. vm_compute. reflexivity.
Qed.

Lemma updateEstimatedTargetTime_projected (cur anchor : Z) (s : State) :
  currentBlock s = Some cur ->
  lastBlockTimeMs s = Some anchor ->
  (num 0 < avgBlockTimeMs s)%Qc ->
  estimate_projected
    (updateEstimatedTargetTime (Some (Z.max 0 (TARGET_BLOCK_HEIGHT - cur))) (Some anchor) s).
Proof.
  intros Hcur Hanchor Hpos.
  exists cur, anchor, (getActiveBlockTimeMs s).
  destruct (updateEstimatedTargetTime_frame
              (Some (Z.max 0 (TARGET_BLOCK_HEIGHT - cur))) (Some anchor) s)
    as (Hc & _ & Ha & _).
  rewrite Hc, Ha. repeat split; try assumption.
  now apply getActiveBlockTimeMs_pos.
Qed.

Lemma isNewBlock_false (s : State) (h : Z) :
  isNewBlock s h = false -> currentBlock s = Some h.
Proof.
  unfold isNewBlock. destruct (currentBlock s) as [cur | ]; [ | discriminate].
  intros Hneg. apply negb_false_iff, Z.eqb_eq in Hneg. now subst.
Qed.

Lemma is_null_false {A : Type} (o : option A) : is_null o = false -> o <> None.
Proof. destruct o; [discriminate | discriminate]. Qed.

Lemma unset_has_no_projection (s : State) :
  estimate_unset s -> estimatedTargetTimeMs s <> None -> False.
Proof. intros (_ & _ & Hest) Hne. contradiction. Qed.

(** Each operation keeps the estimate state in one of its two shapes. *)
Lemma step_keeps_shape (e : Event) (w : World) :
  (num 0 < avgBlockTimeMs (st w))%Qc ->
  estimate_unset (st w) \/ estimate_projected (st w) ->
  estimate_unset (st (step e w)) \/ estimate_projected (st (step e w)).
Proof.
  intros Hpos Hshape.
  assert (Hfallback : forall fallback now clock,
            estimate_unset (st (fst (fetchBlockHeightFallback fallback now clock w))) \/
            estimate_projected (st (fst (fetchBlockHeightFallback fallback now clock w)))).
  { intros fallback now clock. unfold fetchBlockHeightFallback.
    destruct fallback as [h | ]; [ | exact Hshape]. cbn [fst st].
    destruct (isNewBlock (st w) h || is_null _) eqn:Hguard.
    - right. apply updateEstimatedTargetTime_projected; try reflexivity. exact Hpos.
    - apply orb_false_elim in Hguard as [Hnew Hnull].
      rewrite (set_currentBlock_same _ _ (isNewBlock_false _ _ Hnew)).
      exact Hshape. }
  destruct e as [response fallback now clock | checked | ]; cbn [step].
  - destruct response as [[ | first rest] | ].
    + rewrite fetchBlockData_primary_failed by (now right). apply Hfallback.
    + rewrite fetchBlockData_success. cbn [fst st]. right.
      destruct (reprojects _ (st w)) eqn:Hguard.
      * apply updateEstimatedTargetTime_projected; try reflexivity.
        cbn [avgBlockTimeMs set_lastBlockTimeMs set_avgBlockTimeMs].
        now apply polledRate_pos.
      * unfold reprojects in Hguard.
        apply orb_false_elim in Hguard as [Hguard _].
        apply orb_false_elim in Hguard as [Hnew Hnull].
        apply isNewBlock_false in Hnew. apply is_null_false in Hnull.
        destruct Hshape as [Hunset | (cur & anchor & rate & Hc & Ha & Hr & He)];
          [exfalso; exact (unset_has_no_projection _ Hunset Hnull) | ].
        exists cur, anchor, rate.
        cbn [currentBlock lastBlockTimeMs estimatedTargetTimeMs
             set_avgBlockTimeMs set_currentBlock].
        rewrite <- Hnew, Hc. repeat split; assumption.
    + rewrite fetchBlockData_primary_failed by (now left). apply Hfallback.
  - unfold onEstimateModeChange. rewrite updateDisplay_state. cbv zeta. cbn [st].
    destruct Hshape as [(Hc & Ha & He) | (cur & anchor & rate & Hc & Ha & Hr & He)].
    + left. cbn [currentBlock set_estimateMode]. rewrite Hc.
      repeat split; cbn; assumption.
    + right. cbn [currentBlock lastBlockTimeMs set_estimateMode]. rewrite Hc, Ha.
      apply updateEstimatedTargetTime_projected; cbn; assumption.
  - rewrite updateDisplay_state. exact Hshape.
Qed.

Lemma reachable_shape (w : World) :
  reachable w -> estimate_unset (st w) \/ estimate_projected (st w).
Proof.
  induction 1 as [ | e w Hw IH].
  - left. repeat split.
  - apply step_keeps_shape; [ | exact IH].
    now apply reachable_rate_pos.
Qed.

Lemma reachable_run_from (events : list Event) (w : World) :
  reachable w -> reachable (run events w).
Proof.
  unfold run. revert w.
  induction events as [ | e events IH]; intros w Hw; [exact Hw | ].
  cbn [fold_left]. apply IH. now apply reach_step.
Qed.

Lemma onEstimateModeChange_fields (checked : bool) (w : World) :
  currentBlock (st (onEstimateModeChange checked w)) = currentBlock (st w) /\
  lastBlockTimeMs (st (onEstimateModeChange checked w)) = lastBlockTimeMs (st w).
Proof.
  destruct w as [[cur avg anchor est mode] d].
  destruct cur, anchor; split; reflexivity.
Qed.

Lemma step_keeps_counter (e : Event) (w : World) :
  currentBlock (st w) <> None -> currentBlock (st (step e w)) <> None.
Proof.
  intros Hcur.
  assert (Hfallback : forall fallback now clock,
            currentBlock (st (fst (fetchBlockHeightFallback fallback now clock w))) <> None).
  { intros fallback now clock. unfold fetchBlockHeightFallback.
    destruct fallback as [h | ]; [ | exact Hcur]. cbn [fst st].
    destruct (_ || _); discriminate. }
  destruct e as [response fallback now clock | checked | ]; cbn [step].
  - destruct response as [[ | first rest] | ].
    + rewrite fetchBlockData_primary_failed by (now right). apply Hfallback.
    + destruct (fetchBlockData_post first rest fallback now clock w) as (Hc & _).
      rewrite Hc. discriminate.
    + rewrite fetchBlockData_primary_failed by (now left). apply Hfallback.
  - now rewrite (proj1 (onEstimateModeChange_fields checked w)).
  - now rewrite updateDisplay_state.
Qed.

(** The counter value, the anchor and the projection are set together and
    never lost: a reachable world has either none of the three or all of
    them, and once it has them it keeps them through every further poll
    (failed or not), toggle flip and display refresh. *)
Theorem estimate_never_lost (w : World) :
  reachable w ->
  (estimate_unset (st w) \/
   (currentBlock (st w) <> None /\ lastBlockTimeMs (st w) <> None /\
    estimatedTargetTimeMs (st w) <> None)) /\
  (currentBlock (st w) <> None ->
   forall events,
     currentBlock (st (run events w)) <> None /\
     lastBlockTimeMs (st (run events w)) <> None /\
     estimatedTargetTimeMs (st (run events w)) <> None).
Proof.
  intros Hw.
  assert (Hknown : forall w', reachable w' -> currentBlock (st w') <> None ->
            currentBlock (st w') <> None /\ lastBlockTimeMs (st w') <> None /\
            estimatedTargetTimeMs (st w') <> None).
  { intros w' Hw' Hcur.
    destruct (reachable_shape w' Hw')
      as [(Hc & _) | (cur & anchor & rate & Hc & Ha & _ & He)]; [contradiction | ].
    rewrite Ha, He. repeat split; [exact Hcur | discriminate | discriminate]. }
  split.
  - destruct (reachable_shape w Hw)
      as [Hunset | (cur & anchor & rate & Hc & Ha & _ & He)]; [now left | right].
    rewrite Hc, Ha, He. repeat split; discriminate.
  - intros Hcur events. apply Hknown; [now apply reachable_run_from | ].
    unfold run. revert w Hw Hcur.
    induction events as [ | e events IH]; intros w Hw Hcur; [exact Hcur | ].
    cbn [fold_left]. apply IH; [now apply reach_step | now apply step_keeps_counter].
Qed.

Lemma estimate_never_lost_witness :
  let w := step (EvFetch None (Some 900000) 3 4) initial_world in
  let events := [EvFetch None None 5 6; EvToggle false; EvFetch (Some []) None 7 8;
                 EvDisplay] in
  currentBlock (st (run events w)) <> None /\
  lastBlockTimeMs (st (run events w)) <> None /\
  estimatedTargetTimeMs (st (run events w)) <> None.
Proof.
  intros w events.
  apply (proj2 (estimate_never_lost w (reach_step _ _ reach_init))).
  discriminate.
Defined.

Lemma Qc_add_nonneg (a x : Qc) : (num 0 <= x)%Qc -> (a <= a + x)%Qc.
Proof.
  intros Hx. rewrite <- (Qcplus_0_r a) at 1.
  apply Qcplus_le_compat; [apply Qcle_refl | exact Hx].
Qed.

Lemma Qc_add_pos (a x : Qc) : (num 0 < x)%Qc -> (a < a + x)%Qc.
Proof.
  intros Hx. apply (proj2 (Qclt_minus_iff a (a + x)%Qc)).
  replace (a + x + - a)%Qc with x by ring. exact Hx.
Qed.

(** In every reachable world the projection never lies before the anchor:
    it lies strictly after it while the target height is ahead, and it is
    the anchor itself once the counter value has reached the target
    height. *)
Theorem projection_relative_to_anchor (w : World) (cur anchor : Z) (estimate : Qc) :
  reachable w ->
  currentBlock (st w) = Some cur ->
  lastBlockTimeMs (st w) = Some anchor ->
  estimatedTargetTimeMs (st w) = Some estimate ->
  (num anchor <= estimate)%Qc /\
  (cur < TARGET_BLOCK_HEIGHT -> (num anchor < estimate)%Qc) /\
  (TARGET_BLOCK_HEIGHT <= cur -> estimate = num anchor).
Proof.
  intros Hw Hcur Hanchor Hest.
  destruct (reachable_shape w Hw)
    as [(Hc & _) | (c & a & rate & Hc & Ha & Hr & He)]; [congruence | ].
  assert (c = cur) by congruence. assert (a = anchor) by congruence. subst c a.
  rewrite He in Hest. apply Some_eq_inv in Hest. subst estimate.
  split; [ | split].
  - apply Qc_add_nonneg.
    destruct (Z_le_gt_dec TARGET_BLOCK_HEIGHT cur) as [Hreached | Hahead].
    + rewrite Z.max_l by lia. change (num 0) with 0%Qc.
      rewrite Qcmult_0_l. apply Qcle_refl.
    + apply Qclt_le_weak, Qc_mul_pos; [apply num_pos; lia | exact Hr].
  - intros Hahead. apply Qc_add_pos, Qc_mul_pos; [apply num_pos; lia | exact Hr].
  - intros Hreached. rewrite Z.max_l by lia. change (num 0) with 0%Qc. ring.
Qed.

Lemma projection_relative_to_anchor_witness :
  let w := step (EvFetch (Some [mkBlock 100 1000; mkBlock 99 400]) None 0 0)
                initial_world in
  let estimate := (num (1000 * 1000)
                   + num (Z.max 0 (TARGET_BLOCK_HEIGHT - 100))
                     * (num (0 + (1000 - 400)) / num (0 + 1) * num 1000))%Qc in
  (num (1000 * 1000) <= estimate)%Qc /\
  (100 < TARGET_BLOCK_HEIGHT -> (num (1000 * 1000) < estimate)%Qc) /\
  (TARGET_BLOCK_HEIGHT <= 100 -> estimate = num (1000 * 1000)).
Proof.
  intros w estimate.
  apply (projection_relative_to_anchor w 100 (1000 * 1000) estimate
           (reach_step _ _ reach_init)).
  - reflexivity.
  - reflexivity.
  - reflexivity.
Defined.

Lemma step_keeps_fixed_projection (e : Event) (w : World) :
  (estimateMode (st w) = fixed ->
   forall cur anchor,
     currentBlock (st w) = Some cur -> lastBlockTimeMs (st w) = Some anchor ->
     estimatedTargetTimeMs (st w) =
       Some (num anchor + num (Z.max 0 (TARGET_BLOCK_HEIGHT - cur))
                          * num FIXED_BLOCK_TIME_MS)%Qc) ->
  estimateMode (st (step e w)) = fixed ->
  forall cur anchor,
    currentBlock (st (step e w)) = Some cur ->
    lastBlockTimeMs (st (step e w)) = Some anchor ->
    estimatedTargetTimeMs (st (step e w)) =
      Some (num anchor + num (Z.max 0 (TARGET_BLOCK_HEIGHT - cur))
                         * num FIXED_BLOCK_TIME_MS)%Qc.
Proof.
  intros Hinv.
  assert (Hfallback : forall fallback now clock,
            let s' := st (fst (fetchBlockHeightFallback fallback now clock w)) in
            estimateMode s' = fixed ->
            forall cur anchor,
              currentBlock s' = Some cur -> lastBlockTimeMs s' = Some anchor ->
              estimatedTargetTimeMs s' =
                Some (num anchor + num (Z.max 0 (TARGET_BLOCK_HEIGHT - cur))
                                   * num FIXED_BLOCK_TIME_MS)%Qc).
  { intros fallback now clock. unfold fetchBlockHeightFallback.
    destruct fallback as [h | ]; [ | exact Hinv]. cbn [fst st].
    destruct (isNewBlock (st w) h || is_null _) eqn:Hguard.
    - unfold updateEstimatedTargetTime, getActiveBlockTimeMs.
      cbn [estimateMode currentBlock lastBlockTimeMs estimatedTargetTimeMs
           set_estimatedTargetTimeMs set_lastBlockTimeMs set_currentBlock].
      intros Hmode cur anchor Hc Ha. rewrite Hmode. congruence.
    - apply orb_false_elim in Hguard as [Hnew _].
      rewrite (set_currentBlock_same _ _ (isNewBlock_false _ _ Hnew)). exact Hinv. }
  destruct e as [response fallback now clock | checked | ]; cbn [step].
  - destruct response as [[ | first rest] | ].
    + rewrite fetchBlockData_primary_failed by (now right). apply Hfallback.
    + rewrite fetchBlockData_success. cbn [fst st].
      destruct (reprojects _ (st w)) eqn:Hguard.
      * unfold updateEstimatedTargetTime, getActiveBlockTimeMs.
        cbn [estimateMode currentBlock lastBlockTimeMs estimatedTargetTimeMs
             set_estimatedTargetTimeMs set_lastBlockTimeMs set_currentBlock
             set_avgBlockTimeMs].
        intros Hmode cur anchor Hc Ha. rewrite Hmode. congruence.
      * unfold reprojects in Hguard.
        apply orb_false_elim in Hguard as [Hguard _].
        apply orb_false_elim in Hguard as [Hnew _].
        apply isNewBlock_false in Hnew.
        cbn [estimateMode currentBlock lastBlockTimeMs estimatedTargetTimeMs
             set_avgBlockTimeMs set_currentBlock].
        intros Hmode cur anchor Hc Ha. apply Hinv; congruence.
    + rewrite fetchBlockData_primary_failed by (now left). apply Hfallback.
  - destruct w as [[c avg a est mode] d].
    destruct c as [c | ], a as [a | ], checked; cbn; try discriminate;
      intros _ cur anchor Hc Ha; congruence.
  - rewrite updateDisplay_state. exact Hinv.
Qed.

(** With the fixed rate selected, the projection of a reachable world is
    always the anchor plus 600000 ms for every block left. *)
Theorem fixed_mode_projection (w : World) (cur anchor : Z) :
  reachable w ->
  estimateMode (st w) = fixed ->
  currentBlock (st w) = Some cur ->
  lastBlockTimeMs (st w) = Some anchor ->
  estimatedTargetTimeMs (st w) =
    Some (num anchor + num (Z.max 0 (TARGET_BLOCK_HEIGHT - cur)) * num 600000)%Qc.
Proof.
  intros Hw. revert cur anchor.
  induction Hw as [ | e w Hw IH]; intros cur anchor Hmode Hcur Hanchor.
  - discriminate.
  - apply (step_keeps_fixed_projection e w); try assumption.
    intros Hm c a Hc Ha. now apply IH.
Qed.

Lemma fixed_mode_projection_witness :
  let w := run [EvFetch (Some [mkBlock 100 1000; mkBlock 99 400]) None 0 0;
                EvToggle false;
                EvFetch (Some [mkBlock 100 1000; mkBlock 99 700]) None 0 0]
               initial_world in
  estimatedTargetTimeMs (st w) =
    Some (num 1000000 + num (Z.max 0 (TARGET_BLOCK_HEIGHT - 100)) * num 600000)%Qc.
Proof.
  intros w.
  apply (fixed_mode_projection w 100 1000000
           (reach_step _ _ (reach_step _ _ (reach_step _ _ reach_init)))).
  - reflexivity.
  - reflexivity.
  - reflexivity.
Defined.

(* ===================================================================== *)
(** ** More on the rate estimator                                         *)
(* ===================================================================== *)

Lemma last_cons_default (l : list Block) :
  forall x d, last (x :: l) d = last l x.
Proof.
  induction l as [ | y l IH]; intros x d; [reflexivity | ].
  change (last (x :: y :: l) d) with (last (y :: l) d).
  now rewrite !IH.
Qed.

(** Along strictly decreasing timestamps every pair counts and the deltas
    add up to the span of the window. *)
Lemma delta_loop_telescopes (blocks : list Block) :
  forall b t0 s0,
  Sorted (fun x y => timestamp y < timestamp x) (b :: blocks) ->
  delta_loop (b :: blocks) t0 s0 =
  (t0 + (timestamp b - timestamp (last blocks b)), s0 + Z.of_nat (length blocks)).
Proof.
  induction blocks as [ | b' rest IH]; intros b t0 s0 Hsorted.
  - cbn. f_equal; lia.
  - apply Sorted_inv in Hsorted as [Hrest Hhead]. apply HdRel_inv in Hhead.
    rewrite delta_loop_step.
    destruct (Z.gtb_spec (timestamp b - timestamp b') 0) as [_ | Hbad]; [ | lia].
    rewrite (IH b' _ _ Hrest), last_cons_default.
    cbn [length]. f_equal; lia.
Qed.

(** With a constant delta [d] between neighbours the deltas add up to [d]
    per pair. *)
Lemma delta_loop_constant (d : Z) (blocks : list Block) :
  forall b t0 s0,
  0 < d ->
  Sorted (fun x y => timestamp x = timestamp y + d) (b :: blocks) ->
  delta_loop (b :: blocks) t0 s0 =
  (t0 + d * Z.of_nat (length blocks), s0 + Z.of_nat (length blocks)).
Proof.
  induction blocks as [ | b' rest IH]; intros b t0 s0 Hd Hsorted.
  - cbn. f_equal; lia.
  - apply Sorted_inv in Hsorted as [Hrest Hhead]. apply HdRel_inv in Hhead.
    rewrite delta_loop_step.
    destruct (Z.gtb_spec (timestamp b - timestamp b') 0) as [_ | Hbad]; [ | lia].
    rewrite (IH b' _ _ Hd Hrest). cbn [length]. f_equal; lia.
Qed.

Lemma length_two_or_more (b : Block) (blocks : list Block) :
  blocks <> [] -> (length (b :: blocks) <? 2)%nat = false.
Proof.
  intros Hne. destruct blocks as [ | b' rest]; [contradiction | reflexivity].
Qed.

Lemma length_pos (blocks : list Block) :
  blocks <> [] -> 0 < Z.of_nat (length blocks).
Proof. destruct blocks; [contradiction | cbn [length]; lia]. Qed.

(** On a window whose timestamps strictly decrease from the newest block
    to the oldest, the estimate is the span between the newest and the
    oldest timestamp divided by the number of steps, in milliseconds. *)
Theorem average_over_decreasing_timestamps (b : Block) (blocks : list Block) :
  blocks <> [] ->
  Sorted (fun x y => timestamp y < timestamp x) (b :: blocks) ->
  calculateAverageBlockTimeMs (b :: blocks) =
  Some ((num (timestamp b - timestamp (last blocks b))
         / num (Z.of_nat (length blocks))) * num 1000)%Qc.
Proof.
  intros Hne Hsorted. unfold calculateAverageBlockTimeMs.
  rewrite (length_two_or_more b blocks Hne).
  rewrite (delta_loop_telescopes blocks b 0 0 Hsorted).
  pose proof (length_pos blocks Hne) as Hlen.
  rewrite !Z.add_0_l.
  destruct (Z.eqb_spec (Z.of_nat (length blocks)) 0) as [Hz | _]; [lia | reflexivity].
Qed.

Lemma average_over_decreasing_witness :
  calculateAverageBlockTimeMs [mkBlock 12 3000; mkBlock 11 2100; mkBlock 10 1000] =
  Some ((num (3000 - 1000) / num (Z.of_nat 2)) * num 1000)%Qc.
Proof.
  apply (average_over_decreasing_timestamps (mkBlock 12 3000)
           [mkBlock 11 2100; mkBlock 10 1000]).
  - discriminate.
  - repeat constructor; cbn; lia.
Defined.

Lemma Qc_scaled_mean (d n : Z) :
  0 < n -> ((num (d * n) / num n) * num 1000)%Qc = num (d * 1000).
Proof.
  intros Hn. apply Qc_is_canon.
  rewrite this_mult, this_div, !this_num, !inject_Z_mult.
  field. intros Hzero.
  assert (Hq : (inject_Z 0 < inject_Z n)%Q)
    by (unfold Qlt, inject_Z; cbn [Qnum Qden]; lia).
  rewrite Hzero in Hq. discriminate.
Qed.

(** On a window of at least two blocks whose neighbouring timestamps
    differ by the same [d > 0] seconds, the estimate is exactly [d * 1000]
    milliseconds, whatever the length of the window. *)
Theorem average_of_constant_deltas (d : Z) (b : Block) (blocks : list Block) :
  0 < d ->
  blocks <> [] ->
  Sorted (fun x y => timestamp x = timestamp y + d) (b :: blocks) ->
  calculateAverageBlockTimeMs (b :: blocks) = Some (num (d * 1000)).
Proof.
  intros Hd Hne Hsorted. unfold calculateAverageBlockTimeMs.
  rewrite (length_two_or_more b blocks Hne).
  rewrite (delta_loop_constant d blocks b 0 0 Hd Hsorted).
  pose proof (length_pos blocks Hne) as Hlen.
  rewrite !Z.add_0_l.
  destruct (Z.eqb_spec (Z.of_nat (length blocks)) 0) as [Hz | _]; [lia | ].
  f_equal. now apply Qc_scaled_mean.
Qed.

Lemma average_of_constant_deltas_witness :
  calculateAverageBlockTimeMs
    [mkBlock 13 2800; mkBlock 12 2200; mkBlock 11 1600; mkBlock 10 1000]
  = Some (num (600 * 1000)).
Proof.
  apply (average_of_constant_deltas 600 (mkBlock 13 2800)
           [mkBlock 12 2200; mkBlock 11 1600; mkBlock 10 1000]).
  - lia.
  - discriminate.
  - repeat constructor.
Defined.

Lemma calculateAverageBlockTimeMs_floor (blocks : list Block) (v : Qc) :
  calculateAverageBlockTimeMs blocks = Some v -> (num 1000 <= v)%Qc.
Proof.
  unfold calculateAverageBlockTimeMs.
  destruct (length blocks <? 2)%nat; [discriminate | ].
  pose proof (delta_loop_grows blocks 0 0) as Hgrow.
  destruct (delta_loop blocks 0 0) as [totalSeconds samples]. cbn [fst snd] in Hgrow.
  destruct (Z.eqb_spec samples 0) as [Hz | Hnz]; [discriminate | ].
  intros Hv. apply Some_eq_inv in Hv. subst v.
  unfold Qcle. rewrite this_mult, this_div, !this_num.
  assert (Hone : (1 <= inject_Z totalSeconds / inject_Z samples)%Q).
  { apply Qle_shift_div_l.
    - unfold Qlt, inject_Z. cbn [Qnum Qden]. lia.
    - rewrite Qmult_1_l. unfold Qle, inject_Z. cbn [Qnum Qden]. lia. }
  apply (Qmult_le_compat_r _ _ (inject_Z 1000)) in Hone; [ | discriminate].
  now rewrite Qmult_1_l in Hone.
Qed.

(** Where the stored rate of a world comes from: an operation leaves it
    alone or stores a non-null estimate. *)
Lemma step_rate_origin (e : Event) (w : World) :
  avgBlockTimeMs (st (step e w)) = avgBlockTimeMs (st w) \/
  exists blocks, calculateAverageBlockTimeMs blocks = Some (avgBlockTimeMs (st (step e w))).
Proof.
  destruct e as [response fallback now clock | checked | ]; cbn [step].
  - destruct response as [[ | first rest] | ].
    + left. rewrite fetchBlockData_primary_failed by (now right).
      apply fetchBlockHeightFallback_rate.
    + rewrite fetchBlockData_rate. unfold polledRate.
      destruct (calculateAverageBlockTimeMs (sortByHeightDesc (first :: rest)))
        as [v | ] eqn:Havg; [right; eauto | now left].
    + left. rewrite fetchBlockData_primary_failed by (now left).
      apply fetchBlockHeightFallback_rate.
  - left. apply onEstimateModeChange_rate.
  - left. now rewrite updateDisplay_state.
Qed.

(** Timestamps are whole seconds, so every estimate is at least one second
    per block: a non-null estimate is at least 1000 ms, and so is the
    active rate of every reachable world, in both rate modes. *)
Theorem rate_at_least_one_second :
  (forall blocks v, calculateAverageBlockTimeMs blocks = Some v -> (num 1000 <= v)%Qc) /\
  (forall w, reachable w ->
     (num 1000 <= avgBlockTimeMs (st w))%Qc /\
     (num 1000 <= getActiveBlockTimeMs (st w))%Qc).
Proof.
  split; [exact calculateAverageBlockTimeMs_floor | ].
  assert (Hstored : forall w, reachable w -> (num 1000 <= avgBlockTimeMs (st w))%Qc).
  { induction 1 as [ | e w Hw IH].
    - apply num_le. vm_compute. discriminate.
    - destruct (step_rate_origin e w) as [Hsame | (blocks & Havg)].
      + now rewrite Hsame.
      + now apply (calculateAverageBlockTimeMs_floor blocks). }
  intros w Hw. split; [now apply Hstored | ].
  unfold getActiveBlockTimeMs. destruct (estimateMode (st w)); [now apply Hstored | ].
  apply num_le. vm_compute. discriminate.
Qed.

Lemma rate_at_least_one_second_witness :
  (num 1000 <= (num (0 + (1001 - 1000)) / num (0 + 1)) * num 1000)%Qc /\
  (num 1000 <= getActiveBlockTimeMs
                 (st (step (EvFetch (Some [mkBlock 2 1001; mkBlock 1 1000]) None 0 0)
                           initial_world)))%Qc.
Proof.
  split.
  - apply (proj1 rate_at_least_one_second [mkBlock 2 1001; mkBlock 1 1000]).
    reflexivity.
  - apply (proj2 rate_at_least_one_second _ (reach_step _ _ reach_init)).
Defined.

(* ===================================================================== *)
(** ** The batch of the primary poll                                      *)
(* ===================================================================== *)

Lemma tip_in_batch (first : Block) (rest : list Block) :
  In (hd first (sortByHeightDesc (first :: rest))) (first :: rest).
Proof.
  pose proof (sortByHeightDesc_perm (first :: rest)) as Hperm.
  apply (Permutation_in _ Hperm).
  destruct (sortByHeightDesc (first :: rest)) as [ | tip l] eqn:Hsorted.
  - apply Permutation_nil in Hperm. discriminate.
  - now left.
Qed.

(** A successful primary poll takes a block of the batch of greatest
    height, wherever it stands in the batch: its height becomes the counter
    value and its timestamp, in milliseconds, the anchor. *)
Theorem fetchBlockData_takes_highest_block
    (first : Block) (rest : list Block) (fallback : option Z) (now clock : Z) (w : World) :
  let w' := fst (fetchBlockData (Some (first :: rest)) fallback now clock w) in
  exists tip,
    In tip (first :: rest) /\
    (forall b, In b (first :: rest) -> height b <= height tip) /\
    currentBlock (st w') = Some (height tip) /\
    lastBlockTimeMs (st w') = Some (timestamp tip * 1000).
Proof.
  intros w'. exists (hd first (sortByHeightDesc (first :: rest))).
  destruct (fetchBlockData_post first rest fallback now clock w) as (Hcur & Hanchor & _).
  split; [apply tip_in_batch | split; [ | split; assumption]].
  intros b Hb. now apply tip_is_highest.
Qed.

(** *** The order of the batch *)

Lemma strictly_sorted_unique (l : list Block) :
  forall l',
  Permutation l l' ->
  StronglySorted (fun a b => height b < height a) l ->
  StronglySorted (fun a b => height b < height a) l' ->
  l = l'.
Proof.
  induction l as [ | a t IH]; intros l' Hperm Hl Hl'.
  - apply Permutation_nil in Hperm. now subst.
  - destruct l' as [ | a' t'];
      [apply Permutation_sym, Permutation_nil in Hperm; discriminate | ].
    apply StronglySorted_inv in Hl as [Ht Ha].
    apply StronglySorted_inv in Hl' as [Ht' Ha'].
    rewrite Forall_forall in Ha, Ha'.
    assert (Heq : a = a').
    { assert (Hin : In a (a' :: t')) by (apply (Permutation_in _ Hperm); now left).
      assert (Hin' : In a' (a :: t))
        by (apply (Permutation_in _ (Permutation_sym Hperm)); now left).
      destruct Hin as [Hsame | Hin]; [now symmetry | ].
      destruct Hin' as [Hsame | Hin']; [exact Hsame | ].
      apply Ha' in Hin. apply Ha in Hin'. lia. }
    subst a'. f_equal. apply IH; try assumption.
    now apply Permutation_cons_inv in Hperm.
Qed.

Lemma sorted_distinct_is_strict (l : list Block) :
  StronglySorted (fun a b => height b <= height a) l ->
  NoDup (map height l) ->
  StronglySorted (fun a b => height b < height a) l.
Proof.
  induction 1 as [ | a t Ht IH Ha]; intros Hnodup; [constructor | ].
  cbn [map] in Hnodup. apply NoDup_cons_iff in Hnodup as [Hfresh Hnodup].
  constructor; [now apply IH | ].
  rewrite Forall_forall in Ha |- *. intros b Hb.
  pose proof (Ha b Hb) as Hle.
  destruct (Z.eq_dec (height b) (height a)) as [Heq | Hne]; [ | lia].
  exfalso. apply Hfresh. rewrite <- Heq. now apply in_map.
Qed.

Lemma sortByHeightDesc_strict (l : list Block) :
  NoDup (map height l) ->
  StronglySorted (fun a b => height b < height a) (sortByHeightDesc l).
Proof.
  intros Hnodup. apply sorted_distinct_is_strict.
  - apply Sorted_StronglySorted; [intros x y z; lia | apply sortByHeightDesc_sorted].
  - apply (Permutation_NoDup (l := map height l)); [ | exact Hnodup].
    apply Permutation_map, Permutation_sym, sortByHeightDesc_perm.
Qed.

Lemma sortByHeightDesc_order_free (l l' : list Block) :
  Permutation l l' ->
  NoDup (map height l) ->
  sortByHeightDesc l = sortByHeightDesc l'.
Proof.
  intros Hperm Hnodup. apply strictly_sorted_unique.
  - rewrite (sortByHeightDesc_perm l), Hperm. symmetry. apply sortByHeightDesc_perm.
  - now apply sortByHeightDesc_strict.
  - apply sortByHeightDesc_strict.
    apply (Permutation_NoDup (l := map height l)); [ | exact Hnodup].
    now apply Permutation_map.
Qed.

(** The poll does not depend on the order in which the feed lists the
    blocks: two batches with the same blocks of pairwise different heights
    give the same result. *)
Theorem fetchBlockData_ignores_batch_order
    (first first' : Block) (rest rest' : list Block)
    (fallback : option Z) (now clock : Z) (w : World) :
  Permutation (first :: rest) (first' :: rest') ->
  NoDup (map height (first :: rest)) ->
  fetchBlockData (Some (first :: rest)) fallback now clock w =
  fetchBlockData (Some (first' :: rest')) fallback now clock w.
Proof.
  intros Hperm Hnodup.
  rewrite !fetchBlockData_success.
  rewrite <- (sortByHeightDesc_order_free _ _ Hperm Hnodup).
  pose proof (sortByHeightDesc_perm (first :: rest)) as Hsorted.
  destruct (sortByHeightDesc (first :: rest)) as [ | tip l];
    [apply Permutation_nil in Hsorted; discriminate | ].
  reflexivity.
Qed.

Lemma fetchBlockData_ignores_batch_order_witness :
  fetchBlockData (Some [mkBlock 99 400; mkBlock 101 1500; mkBlock 100 1000]) None 0 0
                 initial_world =
  fetchBlockData (Some [mkBlock 101 1500; mkBlock 100 1000; mkBlock 99 400]) None 0 0
                 initial_world.
Proof.
  apply fetchBlockData_ignores_batch_order.
  - apply Permutation_cons_append with (l := [mkBlock 101 1500; mkBlock 100 1000]).
  - repeat constructor; cbn; intuition discriminate.
Defined.

(* ===================================================================== *)
(** ** Remaining facts                                                    *)
(* ===================================================================== *)


(** Flipping the rate-mode toggle reprojects at once from the stored
    anchor with the rate of the mode selected. *)
Theorem onEstimateModeChange_reprojects
    (checked : bool) (w : World) (cur anchor : Z) :
  currentBlock (st w) = Some cur ->
  lastBlockTimeMs (st w) = Some anchor ->
  estimatedTargetTimeMs (st (onEstimateModeChange checked w)) =
    Some (num anchor
          + num (Z.max 0 (TARGET_BLOCK_HEIGHT - cur))
            * (if checked then avgBlockTimeMs (st w) else num 600000))%Qc.
Proof.
  destruct w as [[c avg a est mode] d]. cbn [st currentBlock lastBlockTimeMs].
  intros -> ->. destruct checked; reflexivity.
Qed.

Lemma onEstimateModeChange_reprojects_witness :
  let w := fst (fetchBlockData (Some [mkBlock 100 1000; mkBlock 99 400]) None 0 0
                               initial_world) in
  estimatedTargetTimeMs (st (onEstimateModeChange false w)) =
    Some (num (1000 * 1000)
          + num (Z.max 0 (TARGET_BLOCK_HEIGHT - 100)) * num 600000)%Qc.
Proof.
  intros w. apply (onEstimateModeChange_reprojects false w 100 (1000 * 1000)).
  - reflexivity.
  - reflexivity.
Defined.

Lemma pollCycle_total_failure_display_witness :
  dom (pollCycle (Some []) None 5 6
         (fst (fetchBlockData None (Some 900000) 3 4 initial_world))) =
  mkDom false (TextHeight 900000) (Some 4).
Proof.
  apply (pollCycle_total_failure_display (Some []) 5 6
           (fst (fetchBlockData None (Some 900000) 3 4 initial_world))).
  now right.
Defined.

Lemma progressPercent_below_100_witness :
  let data := mkRemaining 0 2099999997690000 0 in
  progressPercent data =
    ((num (totalMinedSats data) / num (TOTAL_BTC_SUPPLY * SATS_PER_BTC)) * num 100)%Qc /\
  (num 0 <= progressPercent data)%Qc /\
  (progressPercent data < num 100)%Qc.
Proof.
  intros data.
  apply (progressPercent_below_100 (set_currentBlock (Some 7000000) initial_state) data).
  vm_compute. reflexivity.
Defined.
